(** * lightonai/gists: random projections on GPU and OPU

    A shallow embedding of the notebooks' functions
    ([get_conv_features], [generate_RM], [compute_dot_split],
    [get_rand_features_GPU], [get_random_features]), of the double descent
    notebook ([Autoencoder.encode], [rps_list] and the ridge loop) and of
    the Julia script, and the properties of them that the specification
    states.

    Conventions.
    - Python exceptions are values of [exn]; a call that can raise returns
      a [result].  The code has no [try], so every sequence is a monadic
      bind.
    - A 2-D array is its list of rows together with its number of columns
      (an empty array still has a column count).
    - Floating point numbers are an abstract type with the operations the
      code uses ([Scalar]); no algebraic law is assumed of them.  Two
      instances are used to run the code: integers (integer valued floats,
      on which sums, products and magnitudes are exact) and rationals.
    - The printed progress lines and the wall-clock timings returned next
      to the arrays are left out. *)

From Stdlib Require Import ZArith QArith Qabs Qround Lia.
From stdpp Require Import base tactics option list list_numbers strings sorting pretty.

Local Open Scope Z_scope.
Local Open Scope nat_scope.

(** ** Exceptions and results *)

Record exn := mk_exn { exn_class : string; exn_msg : string }.

Definition ValueError (msg : string) : exn := mk_exn "ValueError" msg.
Definition RuntimeError (msg : string) : exn := mk_exn "RuntimeError" msg.
Definition ZeroDivisionError : exn :=
  mk_exn "ZeroDivisionError" "integer division or modulo by zero".

Inductive result (A : Type) : Type :=
| Ok (a : A)
| Raise (e : exn).
Arguments Ok {A} a.
Arguments Raise {A} e.

#[export] Instance result_ret : MRet result := λ A a, Ok a.
#[export] Instance result_bind : MBind result := λ A B f m,
  match m with
  | Ok a => f a
  | Raise e => Raise e
  end.
#[export] Instance result_fmap : FMap result := λ A B f m,
  match m with
  | Ok a => Ok (f a)
  | Raise e => Raise e
  end.

(** ** Scalars *)

Class Scalar (F : Type) := {
  fzero : F;
  fone : F;
  fadd : F → F → F;
  fmul : F → F → F;
  fdiv : F → F → F;
  fabs : F → F;
  fsqrt : F → F;
  of_int : Z → F;
  (** strict comparison [a < b] *)
  flt : F → F → bool;
  (** conversion to [float32], the dtype of the random matrix *)
  float32 : F → F
}.

(** integers; division and square root round down and are not used on
    this instance *)
#[export] Instance Z_scalar : Scalar Z := {|
  fzero := 0%Z; fone := 1%Z;
  fadd := Z.add; fmul := Z.mul; fdiv := Z.div;
  fabs := Z.abs; fsqrt := Z.sqrt;
  of_int := λ z, z;
  flt := Z.ltb;
  float32 := λ z, z
|}.

(** rationals; the square root is that of the integer part, rounded down
    (exact on perfect squares) *)
#[export] Instance Q_scalar : Scalar Q := {|
  fzero := 0%Q; fone := 1%Q;
  fadd := Qplus; fmul := Qmult; fdiv := Qdiv;
  fabs := Qabs;
  fsqrt := λ q, inject_Z (Z.sqrt (Qfloor q));
  of_int := inject_Z;
  flt := λ a b, match Qcompare a b with Lt => true | _ => false end;
  float32 := λ q, q
|}.

(** ** Arrays *)

Record ndarray (F : Type) := mk_ndarray { ncols : nat; rows : list (list F) }.
Arguments mk_ndarray {F} ncols rows.
Arguments ncols {F} _.
Arguments rows {F} _.

Section Arrays.
Context {F : Type}.

Definition nrows (a : ndarray F) : nat := length (rows a).
Definition shape (a : ndarray F) : nat * nat := (nrows a, ncols a).

(** every row has [ncols] entries, as in any numpy array *)
Definition wf (a : ndarray F) : Prop :=
  Forall (λ r, length r = ncols a) (rows a).

Definition entry (a : ndarray F) (i j : nat) : option F :=
  rows a !! i ≫= (.!! j).

Definition map_entries {G : Type} (f : F → G) (a : ndarray F) : ndarray G :=
  mk_ndarray (ncols a) ((λ r : list F, f <$> r) <$> rows a).


(** two arrays side by side *)
Definition hcat (a b : ndarray F) : ndarray F :=
  mk_ndarray (ncols a + ncols b) (zip_with app (rows a) (rows b)).

(** [np.concatenate(l, axis=1)] on 2-D arrays *)
Fixpoint np_concatenate_axis1 (l : list (ndarray F)) : result (ndarray F) :=
  match l with
  | [] => Raise (ValueError "need at least one array to concatenate")
  | a :: l' =>
      match l' with
      | [] => Ok a
      | _ :: _ =>
          b ← np_concatenate_axis1 l';
          if decide (nrows a = nrows b) then Ok (hcat a b)
          else Raise (ValueError "all the input array dimensions except for the concatenation axis must match exactly")
      end
  end.

(** [np.asarray] of a list of 2-D arrays (what [cp.asnumpy] does to a
    Python list): a 3-D array when all have one shape, kept here as the
    list of its slices; an inhomogeneous list is refused. *)
Definition np_asarray_list (l : list (ndarray F)) : result (list (ndarray F)) :=
  match l with
  | [] => Ok []
  | a :: l' =>
      if decide (Forall (λ b, shape b = shape a) l') then Ok l
      else Raise (ValueError "setting an array element with a sequence. The requested array has an inhomogeneous shape")
  end.

(** host/device copies keep the contents *)
Definition cp_asarray (a : ndarray F) : ndarray F := a.
Definition cp_asnumpy (a : ndarray F) : ndarray F := a.
End Arrays.

(** ** The GPU projection *)

Section GPU.
Context {F : Type} `{Scalar F}.

(** sum of products, accumulated from the left *)
Definition inner (u v : list F) : F :=
  foldl (λ acc p, fadd acc (fmul p.1 p.2)) fzero (zip u v).

Definition column (j : nat) (m : ndarray F) : list F :=
  (λ r : list F, default fzero (r !! j)) <$> rows m.

Definition dot_row (m : ndarray F) (xr : list F) : list F :=
  (λ j, inner xr (column j m)) <$> seq 0 (ncols m).

(** [cp.dot(x, m)] on 2-D arrays *)
Definition cp_dot (x m : ndarray F) : result (ndarray F) :=
  if decide (ncols x = nrows m)
  then Ok (mk_ndarray (ncols m) (dot_row m <$> rows x))
  else Raise (ValueError "shapes are not aligned").

(** [cp.abs(v)**2] *)
Definition abs_sq (v : F) : F := fmul (fabs v) (fabs v).

Definition compute_dot_split (x random_matrix : ndarray F) : result (ndarray F) :=
  let rm := cp_asarray random_matrix in
  d ← cp_dot x rm;
  Ok (cp_asnumpy (map_entries abs_sq d)).

Definition get_rand_features_GPU (R : list (ndarray F)) (X : ndarray F)
  : result (ndarray F) :=
  let X := cp_asarray X in
  random_features ← mapM (compute_dot_split X) R;
  random_features ← np_asarray_list random_features;
  np_concatenate_axis1 random_features.
End GPU.

(** ** The random matrix *)

(** numpy's global generator: one standard normal draw and the next state *)
Class RandomState (G F : Type) := { standard_normal : G → F * G }.

(** Python's [a // b] on integers *)
Definition floordiv (a b : Z) : result Z :=
  if decide (b = 0%Z) then Raise ZeroDivisionError else Ok (a `div` b)%Z.

Section RandomMatrix.
Context {F : Type} `{Scalar F} {G : Type} `{RandomState G F}.

(** [n] successive draws *)
Fixpoint draws (n : nat) (s : G) : list F * G :=
  match n with
  | 0 => ([], s)
  | S n' =>
      let '(d, s1) := standard_normal s in
      let '(l, s2) := draws n' s1 in
      (d :: l, s2)
  end.

Definition negative_dimensions : exn :=
  ValueError "negative dimensions are not allowed".

(** [np.zeros(shape=(r, c), dtype='float32')] *)
Definition np_zeros (r c : Z) : result (ndarray F) :=
  if decide (r < 0 ∨ c < 0)%Z then Raise negative_dimensions
  else Ok (mk_ndarray (Z.to_nat c)
             (replicate (Z.to_nat r) (replicate (Z.to_nat c) (float32 fzero)))).

(** [np.random.randn(r, c)]: [r * c] draws, laid out row by row *)
Definition np_random_randn (r c : Z) (s : G) : result (ndarray F * G) :=
  if decide (r < 0 ∨ c < 0)%Z then Raise negative_dimensions
  else
    let '(l, s') := draws (Z.to_nat r * Z.to_nat c) s in
    Ok (mk_ndarray (Z.to_nat c)
          (reshape (replicate (Z.to_nat r) (Z.to_nat c)) l), s').

(** [dst[:] = src] into a [float32] array of the same shape *)
Definition setitem_all (dst src : ndarray F) : result (ndarray F) :=
  if decide (shape src = shape dst) then Ok (map_entries float32 src)
  else Raise (ValueError "could not broadcast input array").

(** [a /= d] *)
Definition idiv (a : ndarray F) (d : F) : ndarray F :=
  map_entries (λ v, fdiv v d) a.

Fixpoint generate_RM_loop (n_components : Z) (matrix_shape : Z * Z)
    (normalize : bool) (k : nat) (R : list (ndarray F)) (s : G)
  : result (list (ndarray F) * G) :=
  match k with
  | 0 => Ok (R, s)
  | S k' =>
      R_tmp ← np_zeros matrix_shape.1 matrix_shape.2;
      '(d, s1) ← np_random_randn matrix_shape.1 matrix_shape.2 s;
      R_tmp ← setitem_all R_tmp d;
      let R_tmp :=
        if normalize then idiv R_tmp (fsqrt (of_int n_components)) else R_tmp in
      generate_RM_loop n_components matrix_shape normalize k' (R ++ [R_tmp]) s1
  end.

(** [generate_RM(n_components, n_features, n_ram, normalize)], run from
    the generator state [s]; [range(n_ram)] is empty for [n_ram <= 0]. *)
Definition generate_RM (n_components n_features n_ram : Z) (normalize : bool)
    (s : G) : result (list (ndarray F) * G) :=
  cols ← floordiv n_components n_ram;
  let matrix_shape := (n_features, cols) in
  generate_RM_loop n_components matrix_shape normalize (Z.to_nat n_ram) [] s.
End RandomMatrix.

(** What a block holds: entry by entry, the draw converted to [float32]
    and, with [normalize], divided by [np.sqrt(n_components)]. *)
Section Blocks.
Context {F : Type} `{Scalar F}.

Definition normalized (n_components : Z) (normalize : bool) (d : F) : F :=
  let v := float32 d in
  if normalize then fdiv v (fsqrt (of_int n_components)) else v.

Definition block_of_draws (n_components : Z) (normalize : bool) (r c : nat)
    (l : list F) : ndarray F :=
  mk_ndarray c (reshape (replicate r c) (normalized n_components normalize <$> l)).

Definition blocks_of_draws (n_components : Z) (normalize : bool) (k r c : nat)
    (l : list F) : list (ndarray F) :=
  block_of_draws n_components normalize r c <$> reshape (replicate k (r * c)) l.
End Blocks.

(** the default [n_ram=10] *)
Definition default_n_ram : Z := 10.

(** A generator for running the code: the state is a counter and the draw
    is its value. *)
#[export] Instance counter_rng : RandomState Z Q :=
  {| standard_normal := λ s, (inject_Z s, (s + 1)%Z) |}.

(** ** Convolutional features *)

Section ConvFeatures.
Context {F : Type} `{Scalar F} {image : Type}.

(** one [(images, targets)] pair of the loader *)
Record batch := mk_batch { images : list image; targets : list Z }.

(** What [get_conv_features] reads of a [DataLoader]: [len(loader.dataset)],
    [loader.batch_size], the batches one iteration yields, and the
    exception that ends the iteration, if any. *)
Record DataLoader := mk_loader {
  dataset_len : nat;
  batch_size : nat;
  batches : list batch;
  failure : option exn
}.

(** [torch.FloatTensor(n, m)]: allocated, not initialised; [mem i j] is
    what the memory holds at position [(i, j)]. *)
Definition torch_FloatTensor (mem : nat → nat → F) (n m : nat) : ndarray F :=
  mk_ndarray m ((λ i, (λ j, mem i j) <$> seq 0 m) <$> seq 0 n).

(** [np.empty(n, dtype='uint8')] *)
Definition np_empty_uint8 (lmem : nat → Z) (n : nat) : list Z :=
  (λ i, lmem i `mod` 256)%Z <$> seq 0 n.

(** [t.view(b, -1)] on the row-major data of a contiguous tensor *)
Definition view (b : nat) (data : list F) : result (ndarray F) :=
  if decide (b = 0) then
    Raise (RuntimeError "cannot reshape tensor into shape [0, -1]")
  else if decide (length data `mod` b = 0) then
    let w := length data `div` b in
    Ok (mk_ndarray w (reshape (replicate b w) data))
  else Raise (RuntimeError "shape is invalid for input size").

(** broadcasting of [src] to the shape [(r, c)]: a dimension of size 1
    is repeated, any other mismatch is an error *)
Definition broadcast_row (c : nat) (row : list F) : result (list F) :=
  if decide (length row = c) then Ok row
  else match row with
       | [v] => Ok (replicate c v)
       | _ => Raise (RuntimeError "The expanded size of the tensor must match the existing size")
       end.

Definition broadcast_to (r c : nat) (src : ndarray F) : result (list (list F)) :=
  rs ← mapM (broadcast_row c) (rows src);
  if decide (length rs = r) then Ok rs
  else match rs with
       | [row] => Ok (replicate r row)
       | _ => Raise (RuntimeError "The expanded size of the tensor must match the existing size")
       end.

(** [dst[lo:hi, :] = src] *)
Definition setitem_rows (dst : ndarray F) (lo hi : nat) (src : ndarray F)
  : result (ndarray F) :=
  let lo' := lo `min` nrows dst in
  let hi' := hi `min` nrows dst in
  new ← broadcast_to (hi' - lo') (ncols dst) src;
  Ok (mk_ndarray (ncols dst) (take lo' (rows dst) ++ new ++ drop (lo' + (hi' - lo')) (rows dst))).

(** [labels[lo:hi] = targets.numpy()] into a [uint8] array *)
Definition setitem_labels (dst : list Z) (lo hi : nat) (src : list Z)
  : result (list Z) :=
  let lo' := lo `min` length dst in
  let hi' := hi `min` length dst in
  new ← (if decide (length src = hi' - lo') then Ok src
         else match src with
              | [t] => Ok (replicate (hi' - lo') t)
              | _ => Raise (ValueError "could not broadcast input array")
              end);
  Ok (take lo' dst ++ ((λ t, t `mod` 256)%Z <$> new) ++ drop (lo' + (hi' - lo')) dst).

(** the body of the loop, for the batch number [i] *)
Definition get_conv_features_body (model : list image → result (list F))
    (bsz : nat) (i : nat) (b : batch)
    (conv_features : ndarray F) (labels : list Z)
  : result (ndarray F * list Z) :=
  outputs ← model (images b);
  v ← view (length (images b)) outputs;
  conv_features ← setitem_rows conv_features (i * bsz) ((i + 1) * bsz) v;
  labels ← setitem_labels labels (i * bsz) ((i + 1) * bsz) (targets b);
  Ok (conv_features, labels).

Fixpoint get_conv_features_loop (model : list image → result (list F))
    (bsz : nat) (i : nat) (bs : list batch)
    (conv_features : ndarray F) (labels : list Z)
  : result (ndarray F * list Z) :=
  match bs with
  | [] => Ok (conv_features, labels)
  | b :: bs' =>
      '(conv_features, labels) ←
        get_conv_features_body model bsz i b conv_features labels;
      get_conv_features_loop model bsz (S i) bs' conv_features labels
  end.

(** [conv_features > 0] *)
Definition gt0 (v : F) : bool := flt fzero v.

(** [get_conv_features(loader, model, out_shape, device)]: the feature
    matrix and the labels.  [model] is the forward pass on a batch,
    giving the data of the output tensor; moving tensors to [device]
    keeps their contents. *)
Definition get_conv_features (mem : nat → nat → F) (lmem : nat → Z)
    (loader : DataLoader) (model : list image → result (list F))
    (out_shape : nat) : result (ndarray bool * list Z) :=
  let n_images := dataset_len loader in
  let conv_features := torch_FloatTensor mem n_images out_shape in
  let labels := np_empty_uint8 lmem n_images in
  '(conv_features, labels) ←
    get_conv_features_loop model (batch_size loader) 0 (batches loader)
      conv_features labels;
  _ ← match failure loader with Some e => Raise e | None => Ok () end;
  let conv_features := map_entries gt0 conv_features in
  Ok (conv_features, labels).

(** the raw features in the order the loader yields the samples *)
Definition raw_features (loader : DataLoader)
    (model : list image → result (list F)) : result (list (list F)) :=
  (λ l : list (list (list F)), mjoin l)
  <$> mapM (λ b, rows <$> (model (images b) ≫= view (length (images b))))
        (batches loader).

(** The loader hands out every sample of its dataset once, in batches of
    [batch_size] samples, the last one possibly shorter: a [DataLoader]
    with its default sampler and [drop_last=False], shuffled or not. *)
Fixpoint yields_all (bsz remaining : nat) (bs : list batch) : Prop :=
  match bs with
  | [] => remaining = 0
  | b :: bs' =>
      0 < length (images b)
      ∧ length (images b) = bsz `min` remaining
      ∧ length (targets b) = length (images b)
      ∧ yields_all bsz (remaining - length (images b)) bs'
  end.

(** the model gives [out_shape] features for each image of the batch *)
Definition features_per_sample (model : list image → result (list F))
    (out_shape : nat) (b : batch) : Prop :=
  ∃ data, model (images b) = Ok data
          ∧ length data = length (images b) * out_shape.

(** the rows a batch contributes: its features, [out_shape] per image *)
Definition batch_rows (model : list image → result (list F)) (out_shape : nat)
    (b : batch) : list (list F) :=
  match model (images b) with
  | Ok data => reshape (replicate (length (images b)) out_shape) data
  | Raise _ => []
  end.
End ConvFeatures.
Arguments batch : clear implicits.
Arguments DataLoader : clear implicits.

(** ** The OPU projection of the first notebook *)

(** [lightonml]'s [OPUMap]: construction for a number of components, and
    [transform] of a boolean matrix into [uint8] intensities.  Both are
    vendor code and hardware; either may raise. *)
Class OPUMapDriver (opu : Type) := {
  OPUMap : Z → result opu;
  OPUMap_transform : opu → ndarray bool → result (ndarray Z)
}.

Section OPUFeatures.
Context {F : Type} `{Scalar F} {opu : Type} `{OPUMapDriver opu}.


End OPUFeatures.

(** ** The double descent notebook *)

Module Autoencoder.
Section Encode.
Context {F : Type} `{Scalar F} {input : Type}.

(** [torch.sign] *)
Definition torch_sign (v : F) : F :=
  if flt fzero v then fone
  else if flt v fzero then of_int (-1)
  else fzero.

(** [encode]: [self.encoder] is the convolution layer; [encoder x] are
    its pre-activations. *)
Definition encode (encoder : input → list F) (x : input) : list F :=
  (λ v, fdiv (fadd (torch_sign v) fone) (of_int 2)) <$> encoder x.
End Encode.
End Autoencoder.

(** [lightonopu]'s [OPU] object and its [transform1d]. *)
Class OPUDriver (opu : Type) := {
  OPU : Z → result opu;
  transform1d : opu → ndarray Z → result (ndarray Z)
}.

(** scikit-learn's [RidgeClassifier]: [fit] and [score]. *)
Class Ridge (clf F : Type) := {
  fit : ndarray Z → list Z → clf;
  score : clf → ndarray Z → list Z → F
}.


Module DoubleDescent.
Definition uniform_sampling : list Z := (λ k, 500 * k)%Z <$> seqZ 4 37.
Definition interpolation_point_sampling : list Z := [9250; 9750; 10250; 10750]%Z.
Definition rps_list : list Z :=
  merge_sort Z.le (uniform_sampling ++ interpolation_point_sampling).

Section Loop.
Context {F : Type} `{Scalar F} {opu : Type} `{OPUDriver opu}
        {clf : Type} `{Ridge clf F}.


End Loop.
End DoubleDescent.

(** ** The Julia script *)

Module JuliaOPU.
(** an array on the Python side: dtype, shape and row-major data *)
Record pyarray := mk_pyarray { dtype : string; pshape : list Z; pdata : list Z }.

(** What the script reaches through PyCall: the package manager, the
    imports, numpy's integer generator and the vendor object.  [W] is the
    state of everything outside the script (installed packages, numpy's
    generator, the device). *)
Class PyCall (W opu : Type) := {
  Pkg_add : string → W → result W;
  pyimport : string → W → result W;
  randint_draw : Z → Z → W → Z * W;
  lgopu_OPU : Z → W → result (opu * W);
  opu_transform1d : opu → pyarray → W → result (pyarray * W);
  julia_typeof : pyarray → string
}.

Section Script.
Context {W opu : Type} `{PyCall W opu}.








End Script.

(** an outside world for running the script: nothing fails, the device
    answers with a fixed 2x2 array *)
#[export] Instance still_world : PyCall () () := {|
  Pkg_add := λ _ _, Ok ();
  pyimport := λ _ _, Ok ();
  randint_draw := λ _ _ _, (1%Z, ());
  lgopu_OPU := λ _ _, Ok ((), ());
  opu_transform1d := λ _ _ _, Ok (mk_pyarray "uint8" [2; 2]%Z [7; 0; 255; 3]%Z, ());
  julia_typeof := λ y, "PyArray{UInt8,2}"
|}.
End JuliaOPU.

(** ** Definitions used to state further properties *)

(** two sample sets one above the other: [np.concatenate((a, b), axis=0)]
    for arrays of one width *)
Definition vstack {F : Type} (a b : ndarray F) : ndarray F :=
  mk_ndarray (ncols a) (rows a ++ rows b).

(** [t.int()] on a float tensor (the argument of [opu.transform1d] in the
    double descent notebook): the value truncated toward zero *)
Definition torch_int (q : Q) : Z := (Qnum q ÷ Z.pos (Qden q))%Z.

(** The loader hands out samples of its dataset in batches of
    [batch_size] samples and may stop before the dataset is exhausted;
    only a batch that ends the dataset may be shorter ([drop_last=True],
    or a sampler over a part of the dataset that fills its last batch). *)
Fixpoint hands_out {image : Type} (bsz remaining : nat) (bs : list (batch image))
  : Prop :=
  match bs with
  | [] => True
  | b :: bs' =>
      0 < length (images b)
      ∧ length (images b) = bsz `min` remaining
      ∧ length (targets b) = length (images b)
      ∧ hands_out bsz (remaining - length (images b)) bs'
  end.

(** one value repeated along a row: what broadcasting makes of a row with
    a single entry *)
Definition repeat_first {F : Type} `{Scalar F} (c : nat) (row : list F) : list F :=
  replicate c (default fzero (row !! 0)).

(** * Properties *)

(** ** The result monad *)

Lemma bind_Ok {A B} (m : result A) (k : A → result B) (b : B) :
  m ≫= k = Ok b ↔ ∃ a, m = Ok a ∧ k a = Ok b.
Proof.
  destruct m as [a|e]; simpl; split.
  - intros Hk. by exists a.
  - by intros (a' & [= <-] & Hk).
  - done.
  - by intros (a' & ? & _).
Qed.

Lemma bind_Ok_l {A B} (a : A) (k : A → result B) : Ok a ≫= k = k a.
Proof. reflexivity. Qed.


Lemma mapM_cons_unfold {A B} (f : A → result B) (x : A) (l : list A) :
  mapM f (x :: l) = y ← f x; k ← mapM f l; mret (y :: k).
Proof. reflexivity. Qed.

Lemma mapM_Ok_cons {A B} (f : A → result B) (x : A) (l : list A) (ys : list B) :
  mapM f (x :: l) = Ok ys ↔
  ∃ y ys', f x = Ok y ∧ mapM f l = Ok ys' ∧ ys = y :: ys'.
Proof.
  simpl. split.
  - intros (y & Hy & (ys' & Hys & [= <-])%bind_Ok)%bind_Ok. eauto.
  - intros (y & ys' & Hy & Hys & ->).
    apply bind_Ok. exists y. split; [done|].
    apply bind_Ok. by exists ys'.
Qed.

Lemma mapM_Ok_length {A B} (f : A → result B) (l : list A) (ys : list B) :
  mapM f l = Ok ys → length ys = length l.
Proof.
  revert ys. induction l as [|x l IH]; intros ys.
  - by intros [= <-].
  - intros (y & ys' & _ & Hys & ->)%mapM_Ok_cons. simpl. f_equal. eauto.
Qed.

Lemma mapM_Ok_Forall2 {A B} (f : A → result B) (l : list A) (ys : list B) :
  mapM f l = Ok ys ↔ Forall2 (λ x y, f x = Ok y) l ys.
Proof.
  revert ys. induction l as [|x l IH]; intros ys.
  - split; [intros [= <-]; constructor | by inversion 1].
  - rewrite mapM_Ok_cons. split.
    + intros (y & ys' & Hy & Hys & ->). constructor; [done|]. by apply IH.
    + inversion 1 as [|? y ? ys' Hy Hys]; subst.
      exists y, ys'. split_and!; [done| |done]. by apply IH.
Qed.


(** ** Arrays side by side *)

Section ArrayFacts.
Context {F : Type}.
Implicit Types a b c : ndarray F.

Lemma nrows_hcat a b : nrows a = nrows b → nrows (hcat a b) = nrows a.
Proof. unfold nrows, hcat. simpl. rewrite length_zip_with. lia. Qed.

Lemma wf_hcat a b : wf a → wf b → wf (hcat a b).
Proof.
  unfold wf, hcat. simpl. generalize (ncols a) (ncols b). intros n m.
  generalize (rows b). induction (rows a) as [|r la IH]; intros [|r' lb] Ha Hb;
    simpl; try constructor.
  - rewrite length_app. inversion Ha; inversion Hb; subst. lia.
  - inversion Ha; inversion Hb; subst. by apply IH.
Qed.

Lemma map_entries_hcat {G : Type} (f : F → G) a b :
  map_entries f (hcat a b) = hcat (map_entries f a) (map_entries f b).
Proof.
  unfold map_entries, hcat. simpl. f_equal.
  generalize (rows b). induction (rows a) as [|r la IH]; intros [|r' lb];
    simpl; try done.
  rewrite fmap_app. f_equal. apply IH.
Qed.

Lemma zip_with_fmap_same {A B C D} (f : B → C → D) (g : A → B) (h : A → C)
    (l : list A) :
  zip_with f (g <$> l) (h <$> l) = (λ x, f (g x) (h x)) <$> l.
Proof. induction l as [|x l IH]; simpl; [done|]. f_equal. apply IH. Qed.

Lemma np_concatenate_axis1_cons2 a b (l : list (ndarray F)) :
  np_concatenate_axis1 (a :: b :: l) =
  c ← np_concatenate_axis1 (b :: l);
  if decide (nrows a = nrows c) then Ok (hcat a c)
  else Raise (ValueError "all the input array dimensions except for the concatenation axis must match exactly").
Proof. reflexivity. Qed.

Lemma np_concatenate_axis1_cons2_Ok a b (l : list (ndarray F)) out :
  np_concatenate_axis1 (a :: b :: l) = Ok out ↔
  ∃ c, np_concatenate_axis1 (b :: l) = Ok c ∧ nrows a = nrows c ∧ out = hcat a c.
Proof.
  rewrite np_concatenate_axis1_cons2, bind_Ok. split.
  - intros (c & Hc & Hout). exists c. case_decide; [|done].
    by injection Hout as <-.
  - intros (c & Hc & Hn & ->). exists c. split; [done|].
    by rewrite decide_True.
Qed.

(** the concatenation keeps the rows of its first argument and adds up
    the columns *)
Lemma np_concatenate_axis1_shape (l : list (ndarray F)) a out :
  np_concatenate_axis1 (a :: l) = Ok out →
  nrows out = nrows a ∧ ncols out = sum_list (ncols <$> (a :: l)).
Proof.
  revert a out. induction l as [|b l IH]; intros a out.
  - intros [= <-]. simpl. lia.
  - intros (c & Hc & Hn & ->)%np_concatenate_axis1_cons2_Ok.
    apply IH in Hc as [Hr Hs]. split.
    + by apply nrows_hcat.
    + unfold hcat. simpl. simpl in Hs. lia.
Qed.

Lemma np_concatenate_axis1_wf (l : list (ndarray F)) out :
  Forall wf l → np_concatenate_axis1 l = Ok out → wf out.
Proof.
  revert out. induction l as [|a l IH]; intros out Hwf; [done|].
  destruct l as [|b l].
  - intros [= <-]. by inversion Hwf.
  - intros (c & Hc & Hn & ->)%np_concatenate_axis1_cons2_Ok.
    inversion Hwf; subst. apply wf_hcat; [done|]. by apply IH.
Qed.

Lemma np_asarray_list_Ok (l l' : list (ndarray F)) :
  np_asarray_list l = Ok l' → l' = l.
Proof.
  destruct l as [|a l]; simpl; [by intros [= <-]|].
  case_decide; [by intros [= <-]|done].
Qed.

Lemma np_asarray_list_same_shape (l : list (ndarray F)) (s : nat * nat) :
  Forall (λ b, shape b = s) l → np_asarray_list l = Ok l.
Proof.
  destruct l as [|a l]; simpl; [done|].
  intros Hl. inversion Hl as [|? ? Ha Hl']; subst.
  rewrite decide_True; [done|].
  eapply Forall_impl; [exact Hl'|]. simpl. congruence.
Qed.
End ArrayFacts.

(** ** The product with two blocks side by side *)

Section GPUFacts.
Context {F : Type} `{Scalar F}.
Implicit Types a b x : ndarray F.

Lemma column_hcat a b (j : nat) :
  wf a → nrows a = nrows b →
  column j (hcat a b) =
  if decide (j < ncols a) then column j a else column (j - ncols a) b.
Proof.
  unfold wf, nrows, column, hcat. simpl. generalize (ncols a). intros n.
  generalize (rows b).
  induction (rows a) as [|r la IH]; intros [|r' lb] Ha Hlen; simplify_eq/=.
  - by case_decide.
  - inversion Ha as [|? ? Hr Hla]; subst.
    rewrite (IH lb Hla) by done.
    case_decide.
    + simpl. by rewrite lookup_app_l by lia.
    + simpl. by rewrite lookup_app_r by lia.
Qed.

Lemma dot_row_hcat a b (xr : list F) :
  wf a → nrows a = nrows b →
  dot_row (hcat a b) xr = dot_row a xr ++ dot_row b xr.
Proof.
  intros Ha Hn. unfold dot_row.
  change (ncols (hcat a b)) with (ncols a + ncols b).
  rewrite seq_app, fmap_app. f_equal.
  - apply list_fmap_ext. intros i j [-> Hj]%lookup_seq.
    rewrite column_hcat by done. by rewrite decide_True by lia.
  - replace (0 + ncols a) with (ncols a + 0) by lia.
    rewrite <- (fmap_add_seq (ncols a) 0), <- list_fmap_compose.
    apply list_fmap_ext. intros i j _. simpl.
    rewrite column_hcat by done. rewrite decide_False by lia.
    do 2 f_equal. lia.
Qed.

Lemma cp_dot_Ok x m d :
  cp_dot x m = Ok d ↔
  ncols x = nrows m ∧ d = mk_ndarray (ncols m) (dot_row m <$> rows x).
Proof.
  unfold cp_dot. case_decide; split.
  - by intros [= <-].
  - by intros [_ ->].
  - done.
  - by intros [? _].
Qed.

Lemma cp_dot_hcat x a b da db :
  wf a → nrows a = nrows b →
  cp_dot x a = Ok da → cp_dot x b = Ok db →
  cp_dot x (hcat a b) = Ok (hcat da db).
Proof.
  intros Ha Hn [Hxa ->]%cp_dot_Ok [Hxb ->]%cp_dot_Ok.
  apply cp_dot_Ok. rewrite nrows_hcat by done. split; [done|].
  unfold hcat at 1. simpl. f_equal.
  rewrite zip_with_fmap_same. apply list_fmap_ext. intros i xr _.
  symmetry. by apply dot_row_hcat.
Qed.

Lemma compute_dot_split_Ok x m out :
  compute_dot_split x m = Ok out ↔
  ∃ d, cp_dot x m = Ok d ∧ out = map_entries abs_sq d.
Proof.
  unfold compute_dot_split, cp_asarray, cp_asnumpy. rewrite bind_Ok.
  split; intros (d & Hd & Hout); exists d; split; congruence.
Qed.

Lemma compute_dot_split_shape x m out :
  compute_dot_split x m = Ok out → shape out = (nrows x, ncols m).
Proof.
  intros (d & [_ ->]%cp_dot_Ok & ->)%compute_dot_split_Ok.
  unfold shape, nrows, map_entries. simpl. by rewrite !length_fmap.
Qed.

Lemma compute_dot_split_aligned x m :
  ncols x = nrows m → ∃ out, compute_dot_split x m = Ok out.
Proof.
  intros Hx. eexists. apply compute_dot_split_Ok. eexists. split; [|done].
  by apply cp_dot_Ok.
Qed.

Lemma compute_dot_split_hcat x a b ra rb :
  wf a → nrows a = nrows b →
  compute_dot_split x a = Ok ra → compute_dot_split x b = Ok rb →
  compute_dot_split x (hcat a b) = Ok (hcat ra rb).
Proof.
  intros Ha Hn (da & Hda & ->)%compute_dot_split_Ok
    (db & Hdb & ->)%compute_dot_split_Ok.
  apply compute_dot_split_Ok. exists (hcat da db).
  split; [by apply cp_dot_hcat|]. symmetry. apply map_entries_hcat.
Qed.

(** projecting block by block and concatenating, against concatenating
    the blocks and projecting once *)
Lemma split_unsplit (R : list (ndarray F)) x out :
  Forall wf R →
  mapM (compute_dot_split x) R ≫= np_concatenate_axis1 = Ok out ↔
  np_concatenate_axis1 R ≫= compute_dot_split x = Ok out.
Proof.
  revert out. induction R as [|a R IH]; intros out Hwf; [done|].
  inversion Hwf as [|? ? Ha HR]; subst.
  destruct R as [|b R].
  { simpl. destruct (compute_dot_split x a); done. }
  rewrite !bind_Ok. split.
  - intros (ys & (ra & rest & Hra & Hrest & ->)%mapM_Ok_cons & Hcat).
    pose proof Hrest as (rb & rest' & _ & _ & ->)%mapM_Ok_cons.
    apply np_concatenate_axis1_cons2_Ok in Hcat as (c & Hc & Hn & ->).
    assert (∃ B, np_concatenate_axis1 (b :: R) = Ok B
                 ∧ compute_dot_split x B = Ok c) as (B & HB & HBc).
    { apply bind_Ok, IH; [done|]. apply bind_Ok. eauto. }
    exists (hcat a B).
    pose proof Hra as (? & [Hxa _]%cp_dot_Ok & _)%compute_dot_split_Ok.
    pose proof HBc as (? & [HxB _]%cp_dot_Ok & _)%compute_dot_split_Ok.
    split.
    + apply np_concatenate_axis1_cons2_Ok. exists B. split_and!; congruence.
    + apply compute_dot_split_hcat; [done|congruence|done|done].
  - intros (A & (B & HB & Hn & ->)%np_concatenate_axis1_cons2_Ok & Hout).
    pose proof Hout as (? & [Hx _]%cp_dot_Ok & _)%compute_dot_split_Ok.
    rewrite nrows_hcat in Hx by done.
    destruct (compute_dot_split_aligned x a Hx) as [ra Hra].
    destruct (compute_dot_split_aligned x B) as [c Hc]; [congruence|].
    rewrite (compute_dot_split_hcat x a B ra c Ha Hn Hra Hc) in Hout.
    injection Hout as <-.
    assert (∃ rest, mapM (compute_dot_split x) (b :: R) = Ok rest
                    ∧ np_concatenate_axis1 rest = Ok c) as (rest & Hrest & Hcat).
    { apply bind_Ok, IH; [done|]. apply bind_Ok. eauto. }
    exists (ra :: rest). split.
    + apply mapM_Ok_cons. eauto.
    + pose proof Hrest as (rb & rest' & _ & _ & ->)%mapM_Ok_cons.
      apply np_concatenate_axis1_cons2_Ok. exists c. split_and!; [done| |done].
      apply compute_dot_split_shape in Hra, Hc. unfold shape in *. congruence.
Qed.

Lemma get_rand_features_GPU_Ok (R : list (ndarray F)) x out :
  get_rand_features_GPU R x = Ok out →
  mapM (compute_dot_split x) R ≫= np_concatenate_axis1 = Ok out.
Proof.
  unfold get_rand_features_GPU, cp_asarray.
  intros (ys & Hys & (ys' & ->%np_asarray_list_Ok & Hcat)%bind_Ok)%bind_Ok.
  apply bind_Ok. eauto.
Qed.

(** blocks of one width give pieces of one shape, which [np.asarray]
    accepts *)
Lemma get_rand_features_GPU_same_width (R : list (ndarray F)) x (w : nat) out :
  Forall (λ m, ncols m = w) R →
  mapM (compute_dot_split x) R ≫= np_concatenate_axis1 = Ok out →
  get_rand_features_GPU R x = Ok out.
Proof.
  intros Hw (ys & Hys & Hcat)%bind_Ok.
  unfold get_rand_features_GPU, cp_asarray. apply bind_Ok. exists ys.
  split; [done|]. apply bind_Ok. exists ys. split; [|done].
  apply np_asarray_list_same_shape with (nrows x, w).
  apply mapM_Ok_Forall2 in Hys. clear Hcat.
  induction Hys as [|m y R' ys' Hy _ IH]; [constructor|].
  inversion Hw; subst. constructor; [|by apply IH].
  by apply compute_dot_split_shape in Hy.
Qed.
End GPUFacts.

Section GPUClaims.
Context {F : Type} `{Scalar F}.

Lemma np_concatenate_axis1_total (l : list (ndarray F)) (n : nat) :
  l ≠ [] → Forall (λ m, nrows m = n) l →
  ∃ c, np_concatenate_axis1 l = Ok c.
Proof.
  induction l as [|a l IH]; [done|]. intros _ Hl.
  inversion Hl as [|? ? Ha Hl']; subst.
  destruct l as [|b l]; [by exists a|].
  destruct IH as [c Hc]; [done|done|].
  exists (hcat a c). apply np_concatenate_axis1_cons2_Ok. exists c.
  split_and!; [done| |done].
  apply np_concatenate_axis1_shape in Hc as [-> _]. by inversion Hl'.
Qed.

Lemma entry_projection (X m : ndarray F) (i j : nat) (xr : list F) :
  rows X !! i = Some xr → j < ncols m →
  entry (map_entries abs_sq (mk_ndarray (ncols m) (dot_row m <$> rows X))) i j
  = Some (abs_sq (inner xr (column j m))).
Proof.
  intros Hi Hj. unfold entry, map_entries, dot_row. simpl.
  rewrite !list_lookup_fmap, Hi. simpl.
  by rewrite !list_lookup_fmap, lookup_seq_lt.
Qed.

(** the GPU path returns on blocks that are not empty, have one width and
    as many rows as [X] has columns *)
Lemma get_rand_features_GPU_returns (R : list (ndarray F)) (X : ndarray F) (w : nat) :
  Forall wf R → R ≠ [] →
  Forall (λ m, nrows m = ncols X ∧ ncols m = w) R →
  ∃ out, get_rand_features_GPU R X = Ok out.
Proof.
  intros Hwf Hne Hshape.
  destruct (np_concatenate_axis1_total R (ncols X)) as [Rc HRc]; [done| |].
  { eapply Forall_impl; [exact Hshape|]. by intros ? [? _]. }
  destruct (compute_dot_split_aligned X Rc) as [out Hout].
  { destruct R as [|a R]; [done|].
    apply np_concatenate_axis1_shape in HRc as [-> _].
    inversion Hshape as [|? ? [? _] _]; subst. done. }
  exists out. apply get_rand_features_GPU_same_width with w.
  - eapply Forall_impl; [exact Hshape|]. by intros ? [_ ?].
  - apply split_unsplit; [done|]. apply bind_Ok. eauto.
Qed.

Lemma sum_list_ncols (ys : list (ndarray F)) (c : nat) :
  Forall (λ y, ncols y = c) ys → sum_list (ncols <$> ys) = length ys * c.
Proof.
  induction 1 as [|y ys Hy _ IH]; [done|].
  change (ncols y + sum_list (ncols <$> ys) = S (length ys) * c).
  rewrite IH, Hy. lia.
Qed.

(** the shape of what the GPU path returns: the rows of [X], and the
    widths of the blocks added up *)
Lemma get_rand_features_GPU_shape (R : list (ndarray F)) (X out : ndarray F) (w : nat) :
  Forall (λ m, ncols m = w) R →
  get_rand_features_GPU R X = Ok out →
  shape out = (nrows X, length R * w).
Proof.
  intros Hw (ys & Hys & Hcat)%get_rand_features_GPU_Ok%bind_Ok.
  assert (Forall (λ y, shape y = (nrows X, w)) ys) as Hshapes.
  { apply mapM_Ok_Forall2 in Hys. clear Hcat.
    induction Hys as [|m y R' ys' Hy _ IH]; [constructor|].
    inversion Hw; subst. constructor; [|by apply IH].
    by apply compute_dot_split_shape in Hy. }
  rewrite <- (mapM_Ok_length _ _ _ Hys).
  destruct ys as [|y ys]; [done|].
  apply np_concatenate_axis1_shape in Hcat as [Hr Hc].
  unfold shape. rewrite Hr, Hc. f_equal.
  - inversion Hshapes as [|? ? Hy _]; subst. by injection Hy.
  - apply sum_list_ncols. eapply Forall_impl; [exact Hshapes|].
    intros ? Hs. by injection Hs.
Qed.

(** C1, as amended: the GPU path returns the squared magnitude of every
    entry of the dense product of [X] with the random matrix (the blocks
    placed side by side), not the product itself; it returns whenever
    the blocks are not empty, have one width and as many rows as [X] has
    columns. *)
Theorem gpu_path_squared_magnitude_of_product
    (R : list (ndarray F)) (X : ndarray F) (w : nat) :
  Forall wf R →
  (R ≠ [] → Forall (λ m, nrows m = ncols X ∧ ncols m = w) R →
   ∃ out, get_rand_features_GPU R X = Ok out)
  ∧ (∀ out, get_rand_features_GPU R X = Ok out →
     ∃ Rc D, np_concatenate_axis1 R = Ok Rc ∧ cp_dot X Rc = Ok D
       ∧ out = map_entries abs_sq D
       ∧ ∀ i j xr, rows X !! i = Some xr → j < ncols Rc →
           entry out i j = Some (abs_sq (inner xr (column j Rc)))).
Proof.
  intros Hwf. split.
  - intros Hne Hshape. by apply get_rand_features_GPU_returns with w.
  - intros out Hout%get_rand_features_GPU_Ok.
    apply split_unsplit in Hout; [|done].
    apply bind_Ok in Hout as (Rc & HRc & (D & HD & ->)%compute_dot_split_Ok).
    exists Rc, D. split_and!; [done..|].
    intros i j xr Hi Hj. apply cp_dot_Ok in HD as [_ ->].
    by apply entry_projection.
Qed.

(** C5: splitting the random matrix into blocks does not change the
    projection.  Projecting block by block with [compute_dot_split] and
    concatenating along the columns returns an array exactly when
    projecting once with the concatenated blocks does, and then the same
    array; what [get_rand_features_GPU] returns is that array, and it
    returns it for blocks of one width. *)
Theorem chunked_projection_refines_unsplit
    (R : list (ndarray F)) (X out : ndarray F) :
  Forall wf R →
  (mapM (compute_dot_split X) R ≫= np_concatenate_axis1 = Ok out ↔
   np_concatenate_axis1 R ≫= compute_dot_split X = Ok out)
  ∧ (get_rand_features_GPU R X = Ok out →
     np_concatenate_axis1 R ≫= compute_dot_split X = Ok out)
  ∧ (∀ w, Forall (λ m, ncols m = w) R →
     np_concatenate_axis1 R ≫= compute_dot_split X = Ok out →
     get_rand_features_GPU R X = Ok out).
Proof.
  intros Hwf. split_and!.
  - by apply split_unsplit.
  - intros Hout%get_rand_features_GPU_Ok. by apply split_unsplit.
  - intros w Hw Hout. apply get_rand_features_GPU_same_width with w; [done|].
    by apply split_unsplit.
Qed.
End GPUClaims.

(** C1, as stated, fails: on the 1x1 matrices [[1]] and [[2]] the GPU path
    returns [[4]], the product is [[2]]. *)
Lemma gpu_path_is_not_the_plain_product :
  ¬ (∀ X R : ndarray Z, get_rand_features_GPU [R] X = cp_dot X R).
Proof.
  intros Hclaim.
  specialize (Hclaim (mk_ndarray 1 [[1%Z]]) (mk_ndarray 1 [[2%Z]])).
  vm_compute in Hclaim. discriminate Hclaim.
Qed.

Lemma gpu_path_squared_magnitude_of_product_witness :
  Forall wf [mk_ndarray 1 [[2%Z]]; mk_ndarray 1 [[-3%Z]]]
  ∧ ∃ Rc D,
      np_concatenate_axis1 [mk_ndarray 1 [[2%Z]]; mk_ndarray 1 [[-3%Z]]] = Ok Rc
      ∧ cp_dot (mk_ndarray 1 [[1%Z]; [2%Z]]) Rc = Ok D
      ∧ mk_ndarray 2 [[4%Z; 9%Z]; [16%Z; 36%Z]] = map_entries abs_sq D
      ∧ ∀ i j xr, rows (mk_ndarray 1 [[1%Z]; [2%Z]]) !! i = Some xr →
          j < ncols Rc →
          entry (mk_ndarray 2 [[4%Z; 9%Z]; [16%Z; 36%Z]]) i j
          = Some (abs_sq (inner xr (column j Rc))).
Proof.
  assert (Forall wf [mk_ndarray 1 [[2%Z]]; mk_ndarray 1 [[-3%Z]]]) as Hwf.
  { repeat constructor. }
  split; [exact Hwf|].
  apply (proj2 (gpu_path_squared_magnitude_of_product
                  [mk_ndarray 1 [[2%Z]]; mk_ndarray 1 [[-3%Z]]]
                  (mk_ndarray 1 [[1%Z]; [2%Z]]) 1 Hwf)).
  reflexivity.
Defined.

Lemma chunked_projection_refines_unsplit_witness :
  Forall wf [mk_ndarray 1 [[2%Z]]; mk_ndarray 2 [[-3%Z; 5%Z]]]
  ∧ np_concatenate_axis1 [mk_ndarray 1 [[2%Z]]; mk_ndarray 2 [[-3%Z; 5%Z]]]
      ≫= compute_dot_split (mk_ndarray 1 [[1%Z]; [2%Z]])
    = Ok (mk_ndarray 3 [[4%Z; 9%Z; 25%Z]; [16%Z; 36%Z; 100%Z]]).
Proof.
  assert (Forall wf [mk_ndarray 1 [[2%Z]]; mk_ndarray 2 [[-3%Z; 5%Z]]]) as Hwf.
  { repeat constructor. }
  split; [exact Hwf|].
  apply (proj1 (chunked_projection_refines_unsplit _ _ _ Hwf)). reflexivity.
Defined.

(** ** The blocks of the random matrix *)

Section RandomMatrixFacts.
Context {F : Type} `{Scalar F} {G : Type} `{RandomState G F}.

Lemma draws_length (n : nat) (s : G) : length (draws n s).1 = n.
Proof.
  revert s. induction n as [|n IH]; intros s; simpl; [done|].
  destruct (standard_normal s) as [d s1]. specialize (IH s1).
  destruct (draws n s1) as [l s2]. simpl in *. by rewrite IH.
Qed.

Lemma draws_app (n m : nat) (s : G) :
  draws (n + m) s =
  ((draws n s).1 ++ (draws m (draws n s).2).1, (draws m (draws n s).2).2).
Proof.
  revert s. induction n as [|n IH]; intros s; simpl.
  - by destruct (draws m s).
  - destruct (standard_normal s) as [d s1]. rewrite IH.
    by destruct (draws n s1) as [l s2].
Qed.

Lemma fmap_reshape {A B} (f : A → B) (szs : list nat) (l : list A) :
  (λ r : list A, f <$> r) <$> reshape szs l = reshape szs (f <$> l).
Proof.
  revert l. induction szs as [|n szs IH]; intros l; simpl; [done|].
  by rewrite IH, fmap_take, fmap_drop.
Qed.

Lemma reshape_replicate_lookup {A} (m n i : nat) (l : list A) :
  i < m → reshape (replicate m n) l !! i = Some (take n (drop (i * n) l)).
Proof.
  revert i l. induction m as [|m IH]; intros i l Hi; [lia|].
  destruct i as [|i]; simpl; [done|].
  rewrite IH by lia. by rewrite drop_drop.
Qed.

Lemma entry_reshape (r c i j : nat) (l : list F) :
  i < r → j < c →
  entry (mk_ndarray c (reshape (replicate r c) l)) i j = l !! (i * c + j).
Proof.
  intros Hi Hj. unfold entry. simpl.
  rewrite reshape_replicate_lookup by done. simpl.
  by rewrite lookup_take_lt, lookup_drop by done.
Qed.

Lemma np_zeros_Ok (r c : Z) :
  (0 ≤ r)%Z → (0 ≤ c)%Z →
  np_zeros r c = Ok (mk_ndarray (Z.to_nat c)
    (replicate (Z.to_nat r) (replicate (Z.to_nat c) (float32 fzero)))).
Proof. intros. unfold np_zeros. rewrite decide_False by lia. done. Qed.

Lemma np_zeros_negative (r c : Z) :
  (r < 0 ∨ c < 0)%Z → np_zeros (F:=F) r c = Raise negative_dimensions.
Proof. intros. unfold np_zeros. by rewrite decide_True. Qed.

(** one pass through the loop body, on a valid shape *)
Lemma generate_RM_loop_step (nc r c : Z) (norm : bool) (k : nat)
    (R : list (ndarray F)) (s : G) :
  (0 ≤ r)%Z → (0 ≤ c)%Z →
  generate_RM_loop nc (r, c) norm (S k) R s =
  generate_RM_loop nc (r, c) norm k
    (R ++ [block_of_draws nc norm (Z.to_nat r) (Z.to_nat c)
             (draws (Z.to_nat r * Z.to_nat c) s).1])
    (draws (Z.to_nat r * Z.to_nat c) s).2.
Proof.
  intros Hr Hc. simpl. rewrite np_zeros_Ok by done. simpl.
  unfold np_random_randn. rewrite decide_False by lia.
  pose proof (draws_length (Z.to_nat r * Z.to_nat c) s) as Hlen.
  destruct (draws (Z.to_nat r * Z.to_nat c) s) as [l s1]. simpl in *.
  unfold setitem_all, shape, nrows. simpl.
  rewrite length_reshape, !length_replicate. rewrite decide_True by done.
  simpl. do 3 f_equal.
  unfold block_of_draws, normalized, idiv, map_entries. simpl.
  destruct norm; simpl; f_equal.
  - by rewrite !fmap_reshape, <- list_fmap_compose.
  - by rewrite fmap_reshape.
Qed.

Lemma generate_RM_loop_Ok (nc r c : Z) (norm : bool) (k : nat)
    (R : list (ndarray F)) (s : G) :
  (0 ≤ r)%Z → (0 ≤ c)%Z →
  let n := Z.to_nat r * Z.to_nat c in
  generate_RM_loop nc (r, c) norm k R s =
  Ok (R ++ blocks_of_draws nc norm k (Z.to_nat r) (Z.to_nat c) (draws (k * n) s).1,
      (draws (k * n) s).2).
Proof.
  intros Hr Hc n. revert R s. induction k as [|k IH]; intros R s.
  - simpl. by rewrite app_nil_r.
  - rewrite generate_RM_loop_step by done. fold n. rewrite IH.
    replace (S k * n) with (n + k * n) by lia. rewrite draws_app. simpl.
    f_equal. f_equal. rewrite <- app_assoc. f_equal.
    unfold blocks_of_draws. fold n. simpl.
    pose proof (draws_length n s) as Hlen.
    by rewrite take_app_length', drop_app_length' by done.
Qed.

Lemma generate_RM_loop_negative (nc r c : Z) (norm : bool) (k : nat)
    (R : list (ndarray F)) (s : G) :
  (r < 0 ∨ c < 0)%Z →
  generate_RM_loop nc (r, c) norm (S k) R s = Raise negative_dimensions.
Proof. intros. simpl. by rewrite np_zeros_negative. Qed.

(** [generate_RM] in closed form *)
Lemma generate_RM_unfold (nc nf nram : Z) (norm : bool) (s : G) :
  generate_RM nc nf nram norm s =
  if decide (nram = 0)%Z then Raise ZeroDivisionError
  else if decide (nram < 0)%Z then Ok ([], s)
  else if decide (nf < 0 ∨ nc `div` nram < 0)%Z then Raise negative_dimensions
  else
    let k := Z.to_nat nram in
    let n := Z.to_nat nf * Z.to_nat (nc `div` nram) in
    Ok (blocks_of_draws nc norm k (Z.to_nat nf) (Z.to_nat (nc `div` nram))
          (draws (k * n) s).1,
        (draws (k * n) s).2).
Proof.
  unfold generate_RM, floordiv. case_decide as Hz; [done|]. simpl.
  case_decide as Hneg.
  { replace (Z.to_nat nram) with 0 by lia. done. }
  case_decide as Hshape.
  - destruct (Z.to_nat nram) as [|k] eqn:Hk; [lia|].
    by apply generate_RM_loop_negative.
  - rewrite generate_RM_loop_Ok by lia. done.
Qed.
End RandomMatrixFacts.

Section BlockFacts.
Context {F : Type} `{Scalar F}.

Lemma block_of_draws_shape (nc : Z) (norm : bool) (r c : nat) (l : list F) :
  shape (block_of_draws nc norm r c l) = (r, c).
Proof.
  unfold shape, nrows, block_of_draws. simpl.
  by rewrite length_reshape, length_replicate.
Qed.

Lemma block_of_draws_wf (nc : Z) (norm : bool) (r c : nat) (l : list F) :
  length l = r * c → wf (block_of_draws nc norm r c l).
Proof.
  intros Hl. unfold wf, block_of_draws. simpl.
  apply Forall_lookup. intros i row Hrow.
  assert (i < r) as Hi.
  { apply lookup_lt_Some in Hrow.
    by rewrite length_reshape, length_replicate in Hrow. }
  rewrite reshape_replicate_lookup in Hrow by done. injection Hrow as <-.
  rewrite length_take, length_drop, length_fmap, Hl. nia.
Qed.

Lemma block_of_draws_entry (nc : Z) (norm : bool) (r c i j : nat) (l : list F) :
  i < r → j < c →
  entry (block_of_draws nc norm r c l) i j = normalized nc norm <$> l !! (i * c + j).
Proof.
  intros Hi Hj. unfold block_of_draws.
  by rewrite entry_reshape, list_lookup_fmap by done.
Qed.

(** an entry that exists lies inside the shape *)
Lemma block_of_draws_entry_inside (nc : Z) (norm : bool) (r c i j : nat)
    (l : list F) (v : F) :
  entry (block_of_draws nc norm r c l) i j = Some v → i < r ∧ j < c.
Proof.
  unfold entry, block_of_draws. simpl.
  destruct (reshape _ _ !! i) as [row|] eqn:Hrow; [|done]. simpl. intros Hv.
  assert (i < r) as Hi.
  { apply lookup_lt_Some in Hrow.
    by rewrite length_reshape, length_replicate in Hrow. }
  split; [done|].
  rewrite reshape_replicate_lookup in Hrow by done. injection Hrow as <-.
  apply lookup_lt_Some in Hv. rewrite length_take in Hv. lia.
Qed.

Lemma blocks_of_draws_lookup (nc : Z) (norm : bool) (k r c b : nat) (l : list F) :
  b < k →
  blocks_of_draws nc norm k r c l !! b =
  Some (block_of_draws nc norm r c (take (r * c) (drop (b * (r * c)) l))).
Proof.
  intros Hb. unfold blocks_of_draws.
  by rewrite list_lookup_fmap, reshape_replicate_lookup.
Qed.

Lemma blocks_of_draws_length (nc : Z) (norm : bool) (k r c : nat) (l : list F) :
  length (blocks_of_draws nc norm k r c l) = k.
Proof.
  unfold blocks_of_draws. by rewrite length_fmap, length_reshape, length_replicate.
Qed.

Lemma blocks_of_draws_Forall (P : ndarray F → Prop) (nc : Z) (norm : bool)
    (k r c : nat) (l : list F) :
  (∀ b, b < k → P (block_of_draws nc norm r c (take (r * c) (drop (b * (r * c)) l)))) →
  Forall P (blocks_of_draws nc norm k r c l).
Proof.
  intros HP. apply Forall_lookup. intros b block Hblock.
  assert (b < k) as Hb.
  { apply lookup_lt_Some in Hblock. by rewrite blocks_of_draws_length in Hblock. }
  rewrite blocks_of_draws_lookup in Hblock by done. injection Hblock as <-. auto.
Qed.
End BlockFacts.

Section RandomMatrixClaims.
Context {F : Type} `{Scalar F} {G : Type} `{RandomState G F}.

(** C8: with [normalize=True] every entry of every returned block is a
    standard normal draw divided by [sqrt(n_components)]: the entry
    [(i, j)] of block [b] is the draw number [b*r*c + i*c + j] of the call
    (for blocks of shape [(r, c)]), converted to [float32] and divided by
    [np.sqrt(n_components)]; [n_features] does not occur in the divisor. *)
Theorem normalized_entries_divided_by_sqrt_n_components
    (n_components n_features n_ram : Z) (s s' : G) (R : list (ndarray F)) :
  generate_RM n_components n_features n_ram true s = Ok (R, s') →
  let r := Z.to_nat n_features in
  let c := Z.to_nat (n_components `div` n_ram) in
  ∀ b block i j v,
    R !! b = Some block → entry block i j = Some v →
    ∃ d, (draws (Z.to_nat n_ram * (r * c)) s).1 !! (b * (r * c) + (i * c + j)) = Some d
         ∧ v = fdiv (float32 d) (fsqrt (of_int n_components)).
Proof.
  rewrite generate_RM_unfold. intros Hgen r c b block i j v Hb Hv.
  case_decide; [done|]. case_decide; [by simplify_eq|].
  case_decide; [done|]. simpl in Hgen. injection Hgen as <- <-.
  fold r c in Hb.
  assert (b < Z.to_nat n_ram) as Hlt.
  { apply lookup_lt_Some in Hb. by rewrite blocks_of_draws_length in Hb. }
  rewrite blocks_of_draws_lookup in Hb by done. injection Hb as <-.
  pose proof (block_of_draws_entry_inside _ _ _ _ _ _ _ _ Hv) as [Hi Hj].
  rewrite block_of_draws_entry in Hv by done.
  assert (i * c + j < r * c) as Hidx by nia.
  rewrite lookup_take_lt, lookup_drop in Hv by done.
  destruct (_ !! _) as [d|] eqn:Hd; [|done].
  exists d. split; [done|]. by injection Hv as <-.
Qed.

End RandomMatrixClaims.

Lemma normalized_entries_divided_by_sqrt_n_components_witness :
  generate_RM 4 1 2 true 0%Z
  = Ok ([mk_ndarray 2 [[0 # 2; 1 # 2]]; mk_ndarray 2 [[2 # 2; 3 # 2]]]%Q, 4%Z)
  ∧ ∃ d : Q,
      (draws (Z.to_nat 2 * (Z.to_nat 1 * Z.to_nat (4 `div` 2))) 0%Z).1
        !! (1 * (Z.to_nat 1 * Z.to_nat (4 `div` 2)) + (0 * Z.to_nat (4 `div` 2) + 1))
      = Some d
      ∧ (3 # 2)%Q = fdiv (float32 d) (fsqrt (of_int 4)).
Proof.
  assert (generate_RM 4 1 2 true 0%Z
          = Ok ([mk_ndarray 2 [[0 # 2; 1 # 2]]; mk_ndarray 2 [[2 # 2; 3 # 2]]]%Q, 4%Z))
    as Hgen.
  { reflexivity. }
  split; [exact Hgen|].
  apply (normalized_entries_divided_by_sqrt_n_components 4 1 2 0%Z 4%Z _ Hgen
           1 (mk_ndarray 2 [[2 # 2; 3 # 2]]%Q) 0 1 (3 # 2)%Q); reflexivity.
Defined.


(** ** The shape of the projection through generated blocks *)

Section GeneratedShape.
Context {F : Type} `{Scalar F} {G : Type} `{RandomState G F}.

(** Projecting through the blocks of [generate_RM] gives
    [n_ram * (n_components // n_ram)] columns. *)
Lemma generated_projection_shape (n_components n_features n_ram : Z)
    (normalize : bool) (s s' : G) (R : list (ndarray F)) (X : ndarray F) :
  (0 < n_ram)%Z →
  generate_RM n_components n_features n_ram normalize s = Ok (R, s') →
  ncols X = Z.to_nat n_features →
  ∃ out, get_rand_features_GPU R X = Ok out
         ∧ shape out = (nrows X, Z.to_nat n_ram * Z.to_nat (n_components `div` n_ram)).
Proof.
  intros Hpos Hgen HX. rewrite generate_RM_unfold in Hgen.
  case_decide; [done|]. case_decide; [lia|]. case_decide; [done|].
  simpl in Hgen. injection Hgen as <- <-.
  set (k := Z.to_nat n_ram). set (r := Z.to_nat n_features).
  set (c := Z.to_nat (n_components `div` n_ram)).
  set (L := (draws (k * (r * c)) s).1).
  assert (length L = k * (r * c)) as HL by apply draws_length.
  assert (∀ b, b < k → length (take (r * c) (drop (b * (r * c)) L)) = r * c) as Hchunk.
  { intros b Hb. rewrite length_take, length_drop, HL. nia. }
  destruct (get_rand_features_GPU_returns
              (blocks_of_draws n_components normalize k r c L) X c) as [out Hout].
  - apply blocks_of_draws_Forall. intros b Hb. apply block_of_draws_wf. auto.
  - intros Hnil. apply (f_equal length) in Hnil.
    rewrite blocks_of_draws_length in Hnil. simpl in Hnil. lia.
  - apply blocks_of_draws_Forall. intros b Hb.
    pose proof (block_of_draws_shape n_components normalize r c
                  (take (r * c) (drop (b * (r * c)) L))) as Hs.
    unfold shape in Hs. injection Hs as Hr. split; [|done].
    rewrite HX. exact Hr.
  - exists out. split; [done|].
    rewrite (get_rand_features_GPU_shape _ _ _ c) with (2 := Hout).
    + by rewrite blocks_of_draws_length.
    + apply blocks_of_draws_Forall. by intros b Hb.
Qed.

(** When [n_ram] divides [n_components] the projection has [n_components]
    columns. *)
Lemma generated_projection_shape_divisible (n_components n_features n_ram : Z)
    (normalize : bool) (s s' : G) (R : list (ndarray F)) (X : ndarray F) :
  (0 < n_ram)%Z → (0 ≤ n_components)%Z → (n_ram | n_components)%Z →
  generate_RM n_components n_features n_ram normalize s = Ok (R, s') →
  ncols X = Z.to_nat n_features →
  ∃ out, get_rand_features_GPU R X = Ok out
         ∧ shape out = (nrows X, Z.to_nat n_components).
Proof.
  intros Hpos Hnc Hdiv Hgen HX.
  destruct (generated_projection_shape _ _ _ _ _ _ _ _ Hpos Hgen HX)
    as (out & Hout & Hshape).
  exists out. split; [done|]. rewrite Hshape. f_equal.
  rewrite <- Z2Nat.inj_mul by (try apply Z.div_pos; lia).
  f_equal. destruct Hdiv as [q ->]. rewrite Z.div_mul by lia. lia.
Qed.
End GeneratedShape.

(** C2 at [n_components = 15] (default [n_ram = 10]), one feature and one
    sample: ten blocks of shape [(1, 1)], hence a projection of shape
    [(1, 10)], where the number of random projections asked for is 15. *)
Theorem projection_drops_remainder_columns :
  ∃ R s' out,
    generate_RM 15 1 default_n_ram true 0%Z = Ok (R, s')
    ∧ Forall (λ m : ndarray Q, shape m = (1, 1)) R ∧ length R = 10
    ∧ get_rand_features_GPU R (mk_ndarray 1 [[1%Q]]) = Ok out
    ∧ shape out = (1, 10)
    ∧ shape out ≠ (1, Z.to_nat 15).
Proof.
  eexists _, _, _. split; [vm_compute; reflexivity|].
  split; [repeat constructor|]. split; [reflexivity|].
  split; [vm_compute; reflexivity|]. split; [reflexivity|].
  vm_compute. discriminate.
Qed.

(** ** Convolutional features *)

Section ConvFeaturesFacts.
Context {F : Type} `{Scalar F} {image : Type}.
Implicit Types (model : list image → result (list F)) (b : batch image).

Lemma reshape_replicate_Forall_length {A} (m n : nat) (l : list A) :
  length l = m * n → Forall (λ r, length r = n) (reshape (replicate m n) l).
Proof.
  intros Hl. apply Forall_lookup. intros i row Hrow.
  assert (i < m) as Hi.
  { apply lookup_lt_Some in Hrow.
    by rewrite length_reshape, length_replicate in Hrow. }
  rewrite reshape_replicate_lookup in Hrow by done. injection Hrow as <-.
  rewrite length_take, length_drop, Hl. nia.
Qed.

Lemma view_Ok (n w : nat) (data : list F) :
  0 < n → length data = n * w →
  view n data = Ok (mk_ndarray w (reshape (replicate n w) data)).
Proof.
  intros Hn Hl. unfold view. rewrite decide_False by lia.
  rewrite Hl, (Nat.mul_comm n w), Nat.Div0.mod_mul, decide_True by done.
  by rewrite Nat.div_mul by lia.
Qed.

Lemma mapM_broadcast_row_Ok (c : nat) (rs : list (list F)) :
  Forall (λ r, length r = c) rs → mapM (broadcast_row c) rs = Ok rs.
Proof.
  intros Hrs. apply mapM_Ok_Forall2.
  induction Hrs as [|r rs Hr _ IH]; constructor; [|done].
  unfold broadcast_row. by rewrite decide_True.
Qed.

Lemma broadcast_to_Ok (r c : nat) (rs : list (list F)) :
  Forall (λ row, length row = c) rs → length rs = r →
  broadcast_to r c (mk_ndarray c rs) = Ok rs.
Proof.
  intros Hrs Hr. unfold broadcast_to. simpl.
  rewrite mapM_broadcast_row_Ok by done. simpl. by rewrite decide_True.
Qed.

(** writing [rs] over the first rows of the part not yet filled *)
Lemma setitem_rows_fill (c lo hi : nat) (filled rest rs : list (list F)) :
  length filled = lo →
  length rs = hi `min` (lo + length rest) - lo →
  Forall (λ row, length row = c) rs →
  setitem_rows (mk_ndarray c (filled ++ rest)) lo hi (mk_ndarray c rs)
  = Ok (mk_ndarray c (filled ++ rs ++ drop (length rs) rest)).
Proof.
  intros Hlo Hlen Hrs. unfold setitem_rows, nrows. simpl.
  rewrite length_app, Hlo.
  replace (lo `min` (lo + length rest)) with lo by lia.
  rewrite <- Hlen, broadcast_to_Ok by done. simpl. do 2 f_equal.
  rewrite take_app_length' by done. do 2 f_equal.
  rewrite drop_app_ge by lia. f_equal. lia.
Qed.

Lemma setitem_labels_fill (lo hi : nat) (filled rest src : list Z) :
  length filled = lo →
  length src = hi `min` (lo + length rest) - lo →
  setitem_labels (filled ++ rest) lo hi src
  = Ok (filled ++ ((λ t, t `mod` 256)%Z <$> src) ++ drop (length src) rest).
Proof.
  intros Hlo Hlen. unfold setitem_labels.
  rewrite length_app, Hlo.
  replace (lo `min` (lo + length rest)) with lo by lia.
  rewrite <- Hlen, decide_True by done. simpl. f_equal.
  rewrite take_app_length' by done. do 2 f_equal.
  rewrite drop_app_ge by lia. f_equal. lia.
Qed.

Lemma batch_rows_view model (out_shape : nat) b :
  0 < length (images b) → features_per_sample model out_shape b →
  model (images b) ≫= view (length (images b))
  = Ok (mk_ndarray out_shape (batch_rows model out_shape b))
  ∧ length (batch_rows model out_shape b) = length (images b)
  ∧ Forall (λ row, length row = out_shape) (batch_rows model out_shape b).
Proof.
  intros Hpos (data & Hdata & Hlen). unfold batch_rows. rewrite Hdata. simpl.
  split_and!.
  - by apply view_Ok.
  - by rewrite length_reshape, length_replicate.
  - by apply reshape_replicate_Forall_length.
Qed.

(** the loop, started with [i] full batches already written *)
Lemma get_conv_features_loop_fill model (bsz out_shape : nat) (bs : list (batch image)) :
  ∀ (i remaining : nat) (filled rest : list (list F)) (lf lr : list Z),
    yields_all bsz remaining bs →
    Forall (features_per_sample model out_shape) bs →
    length filled = i * bsz → length rest = remaining →
    length lf = i * bsz → length lr = remaining →
    get_conv_features_loop model bsz i bs
      (mk_ndarray out_shape (filled ++ rest)) (lf ++ lr)
    = Ok (mk_ndarray out_shape (filled ++ mjoin (batch_rows model out_shape <$> bs)),
          lf ++ mjoin ((λ b, (λ t, t `mod` 256)%Z <$> targets b) <$> bs)).
Proof.
  induction bs as [|b bs IH]; intros i remaining filled rest lf lr Hy Hm Hf Hr Hlf Hlr.
  - simpl in *. subst remaining.
    by rewrite (nil_length_inv rest), (nil_length_inv lr).
  - destruct Hy as (Hpos & Hlen & Htl & Hy).
    inversion Hm as [|? ? Hb Hbs]; subst.
    destruct (batch_rows_view model out_shape b Hpos Hb) as (Hview & Hrl & Hrw).
    simpl. unfold get_conv_features_body.
    apply bind_Ok in Hview as (data & Hdata & Hview).
    rewrite Hdata. simpl. rewrite Hview. simpl.
    rewrite setitem_rows_fill by (done || lia). simpl.
    rewrite setitem_labels_fill by (done || lia). simpl.
    destruct bs as [|b' bs].
    + simpl in *.
      rewrite (nil_length_inv (drop _ rest)) by (rewrite length_drop; lia).
      rewrite (nil_length_inv (drop _ lr)) by (rewrite length_drop; lia).
      by rewrite !app_nil_r.
    + assert (length (images b) = bsz) as Hfull.
      { destruct Hy as (Hpos' & Hlen' & _). lia. }
      rewrite !(app_assoc _ _ (drop _ _)).
      rewrite (IH (S i) (length rest - length (images b))); try done.
      * by rewrite <- !app_assoc.
      * rewrite length_app. lia.
      * rewrite length_drop. lia.
      * rewrite length_app, length_fmap. lia.
      * rewrite length_drop. lia.
Qed.
End ConvFeaturesFacts.

Section ConvFeaturesClaims.
Context {F : Type} `{Scalar F} {image : Type}.
Implicit Types (model : list image → result (list F)) (b : batch image).

Lemma raw_rows_spec model (bsz out_shape : nat) (bs : list (batch image)) :
  ∀ remaining,
    yields_all bsz remaining bs →
    Forall (features_per_sample model out_shape) bs →
    mapM (λ b, rows <$> (model (images b) ≫= view (length (images b)))) bs
    = Ok (batch_rows model out_shape <$> bs)
    ∧ length (mjoin (batch_rows model out_shape <$> bs)) = remaining
    ∧ Forall (λ row, length row = out_shape) (mjoin (batch_rows model out_shape <$> bs)).
Proof.
  induction bs as [|b bs IH]; intros remaining Hy Hm.
  - simpl in *. by subst.
  - destruct Hy as (Hpos & Hlen & Htl & Hy).
    inversion Hm as [|? ? Hb Hbs]; subst.
    destruct (batch_rows_view model out_shape b Hpos Hb) as (Hview & Hrl & Hrw).
    destruct (IH _ Hy Hbs) as (IH1 & IH2 & IH3).
    split_and!.
    + rewrite fmap_cons. apply mapM_Ok_cons.
      exists (batch_rows model out_shape b), (batch_rows model out_shape <$> bs).
      split_and!; [|done..]. by rewrite Hview.
    + rewrite fmap_cons. simpl. rewrite length_app, IH2. lia.
    + rewrite fmap_cons. simpl. by apply Forall_app.
Qed.

(** what [get_conv_features] returns for such a loader and model: the
    buffers do not show in it *)
Lemma get_conv_features_value (mem : nat → nat → F) (lmem : nat → Z)
    (loader : DataLoader image) model (out_shape : nat) :
  yields_all (batch_size loader) (dataset_len loader) (batches loader) →
  failure loader = None →
  Forall (features_per_sample model out_shape) (batches loader) →
  get_conv_features mem lmem loader model out_shape
  = Ok (map_entries gt0
          (mk_ndarray out_shape (mjoin (batch_rows model out_shape <$> batches loader))),
        mjoin ((λ b, (λ t, t `mod` 256)%Z <$> targets b) <$> batches loader)).
Proof.
  intros Hy Hfail Hm. unfold get_conv_features, torch_FloatTensor.
  pose proof (get_conv_features_loop_fill model (batch_size loader) out_shape
    (batches loader) 0 (dataset_len loader) []
    ((λ i, (λ j, mem i j) <$> seq 0 out_shape) <$> seq 0 (dataset_len loader))
    [] (np_empty_uint8 lmem (dataset_len loader)) Hy Hm) as Hloop.
  simpl in Hloop. rewrite Hloop.
  - simpl. rewrite Hfail. simpl. reflexivity.
  - done.
  - by rewrite length_fmap, length_seq.
  - done.
  - unfold np_empty_uint8. by rewrite length_fmap, length_seq.
Qed.

(** C3, as amended: for a loader that hands out every sample of its
    dataset in batches of [batch_size] (the last possibly shorter) and a
    model that gives [out_shape] features per image, [get_conv_features]
    returns the boolean encoding of the raw features: entry [(i, j)] is
    [f_ij > 0] for the [j]-th feature of the [i]-th sample handed out, the
    matrix has one row per sample and [out_shape] columns, and nothing of
    the uninitialised buffer is left in it. *)
Theorem conv_features_boolean_encoded (mem : nat → nat → F) (lmem : nat → Z)
    (loader : DataLoader image) model (out_shape : nat) :
  yields_all (batch_size loader) (dataset_len loader) (batches loader) →
  failure loader = None →
  Forall (features_per_sample model out_shape) (batches loader) →
  ∃ raw M labels,
    raw_features loader model = Ok raw
    ∧ get_conv_features mem lmem loader model out_shape = Ok (M, labels)
    ∧ shape M = (dataset_len loader, out_shape)
    ∧ M = map_entries gt0 (mk_ndarray out_shape raw)
    ∧ ∀ i j, i < dataset_len loader → j < out_shape →
        ∃ f, raw !! i ≫= (.!! j) = Some f ∧ entry M i j = Some (gt0 f).
Proof.
  intros Hy Hfail Hm.
  destruct (raw_rows_spec model _ out_shape _ _ Hy Hm) as (Hraw & Hlen & Hrows).
  set (raw := mjoin (batch_rows model out_shape <$> batches loader)) in *.
  exists raw, (map_entries gt0 (mk_ndarray out_shape raw)).
  eexists. split_and!.
  - unfold raw_features. by rewrite Hraw.
  - by apply get_conv_features_value.
  - unfold shape, nrows, map_entries. simpl. by rewrite length_fmap, Hlen.
  - done.
  - intros i j Hi Hj.
    destruct (lookup_lt_is_Some_2 raw i) as [row Hrow]; [lia|].
    assert (length row = out_shape) as Hw.
    { by eapply (Forall_lookup_1 _ _ _ _ Hrows). }
    destruct (lookup_lt_is_Some_2 row j) as [f Hf]; [lia|].
    exists f. unfold entry, map_entries. simpl.
    rewrite Hrow, list_lookup_fmap, Hrow. simpl.
    by rewrite list_lookup_fmap, Hf.
Qed.
End ConvFeaturesClaims.

(** C3, as stated, fails for a loader that leaves samples out (here
    [drop_last=True]: three samples, batches of two, one batch): the third
    row of the matrix is what the buffer held, not a feature of a sample. *)
Lemma conv_features_partial_loader :
  ¬ (∀ (mem : nat → nat → Z) (lmem : nat → Z) (loader : DataLoader Z)
       (model : list Z → result (list Z)) (out_shape : nat)
       (M : ndarray bool) (labels : list Z),
       get_conv_features mem lmem loader model out_shape = Ok (M, labels) →
       shape M = (dataset_len loader, out_shape)
       ∧ ∃ raw, raw_features loader model = Ok raw
           ∧ ∀ i j, i < dataset_len loader → j < out_shape →
               entry M i j = gt0 <$> (raw !! i ≫= (.!! j))).
Proof.
  intros Hclaim.
  destruct (Hclaim (λ _ _, 9%Z) (λ _, 0%Z)
              (mk_loader 3 2 [mk_batch [5%Z; (-7)%Z] [0%Z; 1%Z]] None)
              (λ imgs, Ok imgs) 1
              (mk_ndarray 1 [[true]; [false]; [true]]) [0%Z; 1%Z; 0%Z] eq_refl)
    as (_ & raw & Hraw & Hentry).
  vm_compute in Hraw. injection Hraw as <-.
  specialize (Hentry 2 0 ltac:(simpl; lia) ltac:(lia)).
  vm_compute in Hentry. discriminate Hentry.
Qed.

Lemma conv_features_boolean_encoded_witness :
  yields_all 2 3 [mk_batch [5%Z; (-7)%Z] [0%Z; 1%Z]; mk_batch [3%Z] [260%Z]]
  ∧ Forall (features_per_sample (λ imgs : list Z, Ok imgs) 1)
      [mk_batch [5%Z; (-7)%Z] [0%Z; 1%Z]; mk_batch [3%Z] [260%Z]]
  ∧ ∃ raw M labels,
      raw_features
        (mk_loader 3 2 [mk_batch [5%Z; (-7)%Z] [0%Z; 1%Z]; mk_batch [3%Z] [260%Z]] None)
        (λ imgs : list Z, Ok imgs) = Ok raw
      ∧ get_conv_features (λ _ _, 9%Z) (λ _, 0%Z)
          (mk_loader 3 2 [mk_batch [5%Z; (-7)%Z] [0%Z; 1%Z]; mk_batch [3%Z] [260%Z]] None)
          (λ imgs : list Z, Ok imgs) 1 = Ok (M, labels)
      ∧ shape M = (3, 1)
      ∧ M = map_entries gt0 (mk_ndarray 1 raw)
      ∧ ∀ i j, i < 3 → j < 1 →
          ∃ f, raw !! i ≫= (.!! j) = Some f ∧ entry M i j = Some (gt0 f).
Proof.
  assert (yields_all 2 3 [mk_batch [5%Z; (-7)%Z] [0%Z; 1%Z]; mk_batch [3%Z] [260%Z]])
    as Hy.
  { simpl. lia. }
  assert (Forall (features_per_sample (λ imgs : list Z, Ok imgs) 1)
            [mk_batch [5%Z; (-7)%Z] [0%Z; 1%Z]; mk_batch [3%Z] [260%Z]]) as Hm.
  { repeat constructor; eexists; (split; [reflexivity|reflexivity]). }
  split; [exact Hy|]. split; [exact Hm|].
  exact (conv_features_boolean_encoded (λ _ _, 9%Z) (λ _, 0%Z)
           (mk_loader 3 2 [mk_batch [5%Z; (-7)%Z] [0%Z; 1%Z]; mk_batch [3%Z] [260%Z]] None)
           (λ imgs : list Z, Ok imgs) 1 Hy eq_refl Hm).
Defined.

Example get_conv_features_run :
  get_conv_features (λ _ _, 9%Z) (λ _, 0%Z)
    (mk_loader 3 2 [mk_batch [5%Z; (-7)%Z] [0%Z; 1%Z]; mk_batch [3%Z] [260%Z]] None)
    (λ imgs : list Z, Ok imgs) 1
  = Ok (mk_ndarray 1 [[true]; [false]; [true]], [0%Z; 1%Z; 4%Z]).
Proof. reflexivity. Qed.

(** ** What the outputs depend on *)

Section Determinism.
Context {F : Type} `{Scalar F} {G : Type} `{RandomState G F} {image : Type}.

End Determinism.


(** ** Exceptions *)

Section Exceptions.
Context {F : Type} `{Scalar F} {G : Type} `{RandomState G F}
        {opu : Type} `{OPUMapDriver opu} {image : Type}.
Implicit Types (model : list image → result (list F)) (b : batch image).






End Exceptions.

(** ** The binary encoding of the autoencoder *)

Lemma Q_flt_spec (a b : Q) : flt a b = true ↔ (a < b)%Q.
Proof.
  change (flt a b) with (match (a ?= b)%Q with Lt => true | _ => false end).
  rewrite Qlt_alt. by destruct (a ?= b)%Q.
Qed.

Lemma torch_sign_Q (v : Q) :
  ((0 < v)%Q ∧ Autoencoder.torch_sign v = 1%Q)
  ∨ ((v < 0)%Q ∧ Autoencoder.torch_sign v = inject_Z (-1))
  ∨ ((v == 0)%Q ∧ Autoencoder.torch_sign v = 0%Q).
Proof.
  unfold Autoencoder.torch_sign. change (@fzero Q _) with 0%Q.
  destruct (flt 0%Q v) eqn:Hpos.
  { left. split; [|done]. by apply Q_flt_spec. }
  destruct (flt v 0%Q) eqn:Hneg.
  { right; left. split; [|done]. by apply Q_flt_spec. }
  right; right. split; [|done].
  apply Qle_antisym; apply Qnot_lt_le; intros Hlt%Q_flt_spec; congruence.
Qed.


Example encode_run :
  Autoencoder.encode (λ x : list Q, x) [3 # 2; 0; -(1 # 4)]%Q
  = [2 # 2; 1 # 2; 0 # 2]%Q.
Proof. reflexivity. Qed.

(** ** The double descent loop *)




Section DoubleDescentFacts.
Context {F : Type} `{Scalar F} {opu : Type} `{OPUDriver opu}
        {clf : Type} `{Ridge clf F}.


End DoubleDescentFacts.

(** ** The Julia script *)

Section JuliaFacts.
Import JuliaOPU.
Context {W opu : Type} `{PyCall W opu}.

End JuliaFacts.

Section JuliaRun.
Import JuliaOPU.

End JuliaRun.

(** ** Runs on small inputs *)

Example get_rand_features_GPU_run :
  get_rand_features_GPU [mk_ndarray 1 [[2%Z]; [1%Z]]; mk_ndarray 1 [[-3%Z]; [0%Z]]]
    (mk_ndarray 2 [[1%Z; 1%Z]; [2%Z; -5%Z]])
  = Ok (mk_ndarray 2 [[9%Z; 9%Z]; [1%Z; 36%Z]]).
Proof. reflexivity. Qed.

Example get_rand_features_GPU_blocks_of_two_widths :
  get_rand_features_GPU [mk_ndarray 1 [[2%Z]]; mk_ndarray 2 [[-3%Z; 5%Z]]]
    (mk_ndarray 1 [[1%Z]])
  = Raise (ValueError "setting an array element with a sequence. The requested array has an inhomogeneous shape").
Proof. reflexivity. Qed.

Example get_rand_features_GPU_no_block :
  get_rand_features_GPU [] (mk_ndarray 1 [[1%Z]])
  = Raise (ValueError "need at least one array to concatenate").
Proof. reflexivity. Qed.

Example generate_RM_run :
  generate_RM 4 1 2 true 0%Z
  = Ok ([mk_ndarray 2 [[0 # 2; 1 # 2]]; mk_ndarray 2 [[2 # 2; 3 # 2]]]%Q, 4%Z).
Proof. reflexivity. Qed.

Example generate_RM_no_split :
  generate_RM (F:=Q) 4 1 0 true 0%Z = Raise ZeroDivisionError.
Proof. reflexivity. Qed.

Example generate_RM_fewer_components_than_blocks :
  fst <$> generate_RM (F:=Q) 5 2 default_n_ram true 0%Z
  = Ok (replicate 10 (mk_ndarray 0 [[]; []])).
Proof. reflexivity. Qed.

Example rps_list_value :
  DoubleDescent.rps_list
  = [2000; 2500; 3000; 3500; 4000; 4500; 5000; 5500; 6000; 6500; 7000; 7500;
     8000; 8500; 9000; 9250; 9500; 9750; 10000; 10250; 10500; 10750; 11000;
     11500; 12000; 12500; 13000; 13500; 14000; 14500; 15000; 15500; 16000;
     16500; 17000; 17500; 18000; 18500; 19000; 19500; 20000]%Z.
Proof. vm_compute. reflexivity. Qed.

(** * Further properties *)

(** ** [generate_RM]: when it returns, what it returns, what it draws *)

Section GenerateRMMore.
Context {F : Type} `{Scalar F} {G : Type} `{RandomState G F}.

(** X1: [generate_RM] returns exactly when [n_ram] is negative, or [n_ram]
    is positive and neither [n_features] nor [n_components] is negative.
    With [n_ram = 0] it raises [ZeroDivisionError]; with a negative
    [n_ram] it returns no block and leaves the generator as it was; with a
    positive [n_ram] and a negative [n_features] or [n_components] it
    raises the [ValueError] of [np.zeros], before any draw. *)
Theorem generate_RM_returns_iff (n_components n_features n_ram : Z)
    (normalize : bool) (s : G) :
  ((∃ R s', generate_RM n_components n_features n_ram normalize s = Ok (R, s'))
   ↔ (n_ram < 0 ∨ (0 < n_ram ∧ 0 ≤ n_features ∧ 0 ≤ n_components))%Z)
  ∧ (n_ram = 0%Z →
     generate_RM n_components n_features n_ram normalize s = Raise ZeroDivisionError)
  ∧ ((n_ram < 0)%Z →
     generate_RM n_components n_features n_ram normalize s = Ok ([], s))
  ∧ ((0 < n_ram)%Z → (n_features < 0 ∨ n_components < 0)%Z →
     generate_RM n_components n_features n_ram normalize s
     = Raise negative_dimensions).
Proof.
  rewrite generate_RM_unfold.
  assert ((0 < n_ram)%Z → (n_components `div` n_ram < 0 ↔ n_components < 0)%Z)
    as Hdiv.
  { intros Hpos. split; intros Hneg.
    - destruct (decide (n_components < 0)%Z) as [|Hnn]; [done|].
      pose proof (Z.div_pos n_components n_ram). lia.
    - apply Z.div_lt_upper_bound; lia. }
  split_and!.
  - case_decide as Hz; [|case_decide as Hneg; [|case_decide as Hshape]].
    + split; [by intros (? & ? & ?)|lia].
    + split; [by left|eauto].
    + split; [by intros (? & ? & ?)|]. intros [?|(Hpos & ? & ?)]; [lia|].
      apply Hdiv in Hpos. lia.
    + split; [|eauto]. intros _. right.
      assert (0 < n_ram)%Z as Hpos by lia. apply Hdiv in Hpos. lia.
  - intros ->. by rewrite decide_True.
  - intros Hneg. rewrite decide_False, decide_True by lia. done.
  - intros Hpos Hbad. rewrite !decide_False by lia.
    rewrite decide_True; [done|]. apply Hdiv in Hpos. lia.
Qed.

(** X2: a call with a positive [n_ram] that returns gives exactly [n_ram]
    blocks, each a well-formed array of shape
    [(n_features, n_components // n_ram)]. *)
Theorem generate_RM_blocks_shape (n_components n_features n_ram : Z)
    (normalize : bool) (s s' : G) (R : list (ndarray F)) :
  (0 < n_ram)%Z →
  generate_RM n_components n_features n_ram normalize s = Ok (R, s') →
  length R = Z.to_nat n_ram
  ∧ Forall (λ m, wf m ∧ shape m = (Z.to_nat n_features,
                                   Z.to_nat (n_components `div` n_ram))) R.
Proof.
  intros Hpos. rewrite generate_RM_unfold.
  case_decide; [done|]. case_decide; [lia|]. case_decide; [done|].
  simpl. intros [= <- <-]. split; [apply blocks_of_draws_length|].
  apply blocks_of_draws_Forall. intros b Hb. split.
  - apply block_of_draws_wf. rewrite length_take, length_drop, draws_length. nia.
  - apply block_of_draws_shape.
Qed.
End GenerateRMMore.

Lemma generate_RM_blocks_shape_witness :
  (0 < 2)%Z
  ∧ generate_RM 4 1 2 true 0%Z
    = Ok ([mk_ndarray 2 [[0 # 2; 1 # 2]]; mk_ndarray 2 [[2 # 2; 3 # 2]]]%Q, 4%Z)
  ∧ length [mk_ndarray 2 [[0 # 2; 1 # 2]]; mk_ndarray 2 [[2 # 2; 3 # 2]]]%Q
    = Z.to_nat 2
  ∧ Forall (λ m : ndarray Q, wf m ∧ shape m = (Z.to_nat 1, Z.to_nat (4 `div` 2)))
      [mk_ndarray 2 [[0 # 2; 1 # 2]]; mk_ndarray 2 [[2 # 2; 3 # 2]]]%Q.
Proof.
  assert (0 < 2)%Z as Hpos by lia.
  assert (generate_RM 4 1 2 true 0%Z
          = Ok ([mk_ndarray 2 [[0 # 2; 1 # 2]]; mk_ndarray 2 [[2 # 2; 3 # 2]]]%Q, 4%Z))
    as Hgen by reflexivity.
  split; [exact Hpos|]. split; [exact Hgen|].
  exact (generate_RM_blocks_shape 4 1 2 true 0%Z 4%Z _ Hpos Hgen).
Defined.


Section GenerateRMStream.
Context {F : Type} `{Scalar F} {G : Type} `{RandomState G F}.


(** X4: normalisation only rescales.  From one generator state, the call
    with [normalize=True] returns the blocks of the call with
    [normalize=False], each divided entry by entry by
    [np.sqrt(n_components)], leaves the generator in the same state, and
    raises the same exception when that one raises. *)
Theorem generate_RM_normalize_rescales (n_components n_features n_ram : Z) (s : G) :
  generate_RM n_components n_features n_ram true s
  = (λ p : list (ndarray F) * G,
       ((λ m, idiv m (fsqrt (of_int n_components))) <$> p.1, p.2))
    <$> generate_RM n_components n_features n_ram false s.
Proof.
  rewrite !generate_RM_unfold.
  case_decide; [done|]. case_decide; [done|]. case_decide; [done|].
  simpl. do 2 f_equal. unfold blocks_of_draws.
  rewrite <- list_fmap_compose. apply list_fmap_ext. intros i l _. simpl.
  unfold block_of_draws, idiv, map_entries, normalized. simpl. f_equal.
  by rewrite fmap_reshape, <- list_fmap_compose.
Qed.
End GenerateRMStream.


(** ** The GPU projection: when it returns, signs, batches of samples *)

Lemma mapM_total {A B} (f : A → result B) (l : list A) :
  Forall (λ x, ∃ y, f x = Ok y) l → ∃ ys, mapM f l = Ok ys.
Proof.
  induction 1 as [|x l [y Hy] _ [ys Hys]]; [by exists []|].
  exists (y :: ys). apply mapM_Ok_cons. eauto.
Qed.

Section GPUMore.
Context {F : Type} `{Scalar F}.
Implicit Types (x m X : ndarray F) (R : list (ndarray F)).

Lemma dot_row_length m (xr : list F) : length (dot_row m xr) = ncols m.
Proof. unfold dot_row. by rewrite length_fmap, length_seq. Qed.

Lemma compute_dot_split_wf x m out : compute_dot_split x m = Ok out → wf out.
Proof.
  intros (d & [_ ->]%cp_dot_Ok & ->)%compute_dot_split_Ok.
  unfold wf, map_entries. simpl. rewrite <- list_fmap_compose.
  apply Forall_fmap, Forall_forall. intros xr _. simpl.
  by rewrite length_fmap, dot_row_length.
Qed.

Lemma pieces_facts X R (ys : list (ndarray F)) :
  mapM (compute_dot_split X) R = Ok ys →
  Forall (λ m, nrows m = ncols X) R
  ∧ Forall wf ys
  ∧ Forall2 (λ m y, shape y = (nrows X, ncols m)) R ys.
Proof.
  intros HF%mapM_Ok_Forall2.
  induction HF as [|m y R' ys' Hy _ (IH1 & IH2 & IH3)]; [by repeat constructor|].
  split_and!; constructor; try done.
  - by apply compute_dot_split_Ok in Hy as (d & [-> _]%cp_dot_Ok & _).
  - by eapply compute_dot_split_wf.
  - by apply compute_dot_split_shape.
Qed.

Lemma get_rand_features_GPU_Ok_inv R X out :
  get_rand_features_GPU R X = Ok out →
  R ≠ [] ∧ Forall (λ m, nrows m = ncols X) R ∧ ∃ w, Forall (λ m, ncols m = w) R.
Proof.
  intros Hout. unfold get_rand_features_GPU, cp_asarray in Hout.
  apply bind_Ok in Hout as (ys & Hys & (ys' & Has & Hcat)%bind_Ok).
  pose proof (np_asarray_list_Ok _ _ Has) as ->.
  destruct (pieces_facts _ _ _ Hys) as (Hal & _ & Hsh).
  destruct ys as [|y0 ys]; [done|].
  inversion Hsh as [|m0 ? R0 ? Hy0 Hsh0]; subst.
  split_and!; [done|done|]. exists (ncols m0).
  simpl in Has. case_decide as Hsame; [|done]. constructor; [done|].
  clear -Hsh0 Hsame Hy0. induction Hsh0 as [|m y R0 ys Hy _ IH]; [constructor|].
  inversion Hsame as [|? ? Hyy Hsame']; subst. constructor; [|by apply IH].
  rewrite Hy, Hy0 in Hyy. by injection Hyy.
Qed.

Lemma get_rand_features_GPU_Ok_intro R X (w : nat) :
  R ≠ [] → Forall (λ m, nrows m = ncols X) R → Forall (λ m, ncols m = w) R →
  ∃ out, get_rand_features_GPU R X = Ok out.
Proof.
  intros Hne Hal Hw.
  destruct (mapM_total (compute_dot_split X) R) as [ys Hys].
  { eapply Forall_impl; [exact Hal|]. intros m Hm.
    by apply compute_dot_split_aligned. }
  destruct (pieces_facts _ _ _ Hys) as (_ & _ & Hsh).
  destruct (np_concatenate_axis1_total ys (nrows X)) as [out Hout].
  - intros ->. apply Forall2_nil_inv_r in Hsh. done.
  - clear -Hsh. induction Hsh as [|m y R ys Hy _ IH]; constructor; [|done].
    unfold shape in Hy. by injection Hy.
  - exists out. apply get_rand_features_GPU_same_width with w; [done|].
    apply bind_Ok. eauto.
Qed.

(** X5: [get_rand_features_GPU] returns an array exactly when the block
    list is not empty, every block has as many rows as [X] has columns, and
    all blocks have one width [w]; the array is then well formed, of shape
    [(n_samples, k * w)] for [k] blocks. *)
Theorem get_rand_features_GPU_returns_iff R X :
  ((∃ out, get_rand_features_GPU R X = Ok out)
   ↔ R ≠ [] ∧ Forall (λ m, nrows m = ncols X) R
     ∧ ∃ w, Forall (λ m, ncols m = w) R)
  ∧ ∀ out w, get_rand_features_GPU R X = Ok out →
      Forall (λ m, ncols m = w) R →
      wf out ∧ shape out = (nrows X, length R * w).
Proof.
  split; [split|].
  - intros [out Hout]. by eapply get_rand_features_GPU_Ok_inv.
  - intros (Hne & Hal & w & Hw). by eapply get_rand_features_GPU_Ok_intro.
  - intros out w Hout Hw. split.
    + apply get_rand_features_GPU_Ok, bind_Ok in Hout as (ys & Hys & Hcat).
      destruct (pieces_facts _ _ _ Hys) as (_ & Hwf & _).
      by eapply np_concatenate_axis1_wf.
    + by apply get_rand_features_GPU_shape.
Qed.

End GPUMore.

Section EmptyProjection.
Context {F : Type} `{Scalar F} {G : Type} `{RandomState G F}.

(** X7: with a negative [n_ram], [generate_RM] returns an empty block
    list without complaint, and the projection through it then fails in
    [np.concatenate], whatever the input matrix. *)
Theorem projection_through_no_block_raises (n_components n_features n_ram : Z)
    (normalize : bool) (s : G) (X : ndarray F) :
  (n_ram < 0)%Z →
  generate_RM n_components n_features n_ram normalize s
    ≫= (λ p, get_rand_features_GPU p.1 X)
  = Raise (ValueError "need at least one array to concatenate").
Proof.
  intros Hneg. rewrite generate_RM_unfold.
  rewrite decide_False, decide_True by lia. reflexivity.
Qed.
End EmptyProjection.

Lemma projection_through_no_block_raises_witness :
  (-3 < 0)%Z
  ∧ generate_RM 120 4 (-3) true 0%Z
      ≫= (λ p, get_rand_features_GPU p.1 (mk_ndarray 4 [[1; 0; 1; 1]%Q]))
    = Raise (ValueError "need at least one array to concatenate").
Proof.
  assert (-3 < 0)%Z as Hneg by lia.
  split; [exact Hneg|].
  exact (projection_through_no_block_raises 120 4 (-3) true 0%Z
           (mk_ndarray 4 [[1; 0; 1; 1]%Q]) Hneg).
Defined.

Section GPUBatches.
Context {F : Type} `{Scalar F}.
Implicit Types (m X : ndarray F) (R : list (ndarray F)).

Lemma hcat_vstack (a1 a2 c1 c2 : ndarray F) :
  nrows a1 = nrows c1 →
  hcat (vstack a1 a2) (vstack c1 c2) = vstack (hcat a1 c1) (hcat a2 c2).
Proof.
  intros Hn. unfold hcat, vstack. simpl. f_equal. by apply zip_with_app.
Qed.

Lemma compute_dot_split_vstack X1 X2 m (y1 y2 : ndarray F) :
  compute_dot_split X1 m = Ok y1 → compute_dot_split X2 m = Ok y2 →
  compute_dot_split (vstack X1 X2) m = Ok (vstack y1 y2).
Proof.
  intros (d1 & [Hx1 ->]%cp_dot_Ok & ->)%compute_dot_split_Ok
    (d2 & [Hx2 ->]%cp_dot_Ok & ->)%compute_dot_split_Ok.
  apply compute_dot_split_Ok. eexists. split; [by apply cp_dot_Ok|].
  unfold vstack, map_entries. simpl. by rewrite !fmap_app.
Qed.

Lemma mapM_compute_dot_split_vstack X1 X2 R (ys1 ys2 : list (ndarray F)) :
  mapM (compute_dot_split X1) R = Ok ys1 →
  mapM (compute_dot_split X2) R = Ok ys2 →
  mapM (compute_dot_split (vstack X1 X2)) R = Ok (zip_with vstack ys1 ys2).
Proof.
  revert ys1 ys2. induction R as [|m R IH]; intros ys1 ys2.
  - by intros [= <-] [= <-].
  - intros (y1 & ys1' & Hy1 & Hys1 & ->)%mapM_Ok_cons
      (y2 & ys2' & Hy2 & Hys2 & ->)%mapM_Ok_cons.
    apply mapM_Ok_cons. exists (vstack y1 y2), (zip_with vstack ys1' ys2').
    split_and!; [by apply compute_dot_split_vstack|by apply IH|done].
Qed.

Lemma np_concatenate_axis1_vstack (ys1 : list (ndarray F)) :
  ∀ (ys2 : list (ndarray F)) (o1 o2 : ndarray F),
    length ys1 = length ys2 →
    np_concatenate_axis1 ys1 = Ok o1 → np_concatenate_axis1 ys2 = Ok o2 →
    np_concatenate_axis1 (zip_with vstack ys1 ys2) = Ok (vstack o1 o2).
Proof.
  induction ys1 as [|a1 ys1 IH]; intros ys2 o1 o2 Hlen H1 H2; [done|].
  destruct ys2 as [|a2 ys2]; [done|].
  destruct ys1 as [|b1 ys1], ys2 as [|b2 ys2]; try done.
  - by simplify_eq/=.
  - apply np_concatenate_axis1_cons2_Ok in H1 as (c1 & Hc1 & Hn1 & ->).
    apply np_concatenate_axis1_cons2_Ok in H2 as (c2 & Hc2 & Hn2 & ->).
    change (zip_with vstack (a1 :: b1 :: ys1) (a2 :: b2 :: ys2))
      with (vstack a1 a2 :: vstack b1 b2 :: zip_with vstack ys1 ys2).
    apply np_concatenate_axis1_cons2_Ok. exists (vstack c1 c2). split_and!.
    + apply (IH (b2 :: ys2)); [simpl in *; lia|done|done].
    + unfold nrows, vstack in *. simpl. rewrite !length_app. lia.
    + symmetry. by apply hcat_vstack.
Qed.

(** X10: samples can be projected in batches.  When the projections of
    two sample sets [X1] and [X2] through the same blocks both return, the
    projection of the two sets stacked one above the other returns the two
    results stacked one above the other. *)
Theorem get_rand_features_GPU_vstack R X1 X2 (o1 o2 : ndarray F) :
  get_rand_features_GPU R X1 = Ok o1 →
  get_rand_features_GPU R X2 = Ok o2 →
  get_rand_features_GPU R (vstack X1 X2) = Ok (vstack o1 o2).
Proof.
  intros H1 H2.
  destruct (get_rand_features_GPU_Ok_inv _ _ _ H1) as (_ & _ & w & Hw).
  apply get_rand_features_GPU_Ok, bind_Ok in H1 as (ys1 & Hys1 & Hcat1).
  apply get_rand_features_GPU_Ok, bind_Ok in H2 as (ys2 & Hys2 & Hcat2).
  apply get_rand_features_GPU_same_width with w; [done|].
  apply bind_Ok. exists (zip_with vstack ys1 ys2). split.
  - by apply mapM_compute_dot_split_vstack.
  - apply np_concatenate_axis1_vstack; [|done..].
    by rewrite (mapM_Ok_length _ _ _ Hys1), (mapM_Ok_length _ _ _ Hys2).
Qed.
End GPUBatches.

Lemma get_rand_features_GPU_vstack_witness :
  get_rand_features_GPU [mk_ndarray 1 [[2%Z]]; mk_ndarray 1 [[-3%Z]]]
    (mk_ndarray 1 [[1%Z]; [2%Z]])
  = Ok (mk_ndarray 2 [[4%Z; 9%Z]; [16%Z; 36%Z]])
  ∧ get_rand_features_GPU [mk_ndarray 1 [[2%Z]]; mk_ndarray 1 [[-3%Z]]]
      (mk_ndarray 1 [[-1%Z]])
    = Ok (mk_ndarray 2 [[4%Z; 9%Z]])
  ∧ get_rand_features_GPU [mk_ndarray 1 [[2%Z]]; mk_ndarray 1 [[-3%Z]]]
      (vstack (mk_ndarray 1 [[1%Z]; [2%Z]]) (mk_ndarray 1 [[-1%Z]]))
    = Ok (vstack (mk_ndarray 2 [[4%Z; 9%Z]; [16%Z; 36%Z]])
            (mk_ndarray 2 [[4%Z; 9%Z]])).
Proof.
  assert (get_rand_features_GPU [mk_ndarray 1 [[2%Z]]; mk_ndarray 1 [[-3%Z]]]
            (mk_ndarray 1 [[1%Z]; [2%Z]])
          = Ok (mk_ndarray 2 [[4%Z; 9%Z]; [16%Z; 36%Z]])) as H1 by reflexivity.
  assert (get_rand_features_GPU [mk_ndarray 1 [[2%Z]]; mk_ndarray 1 [[-3%Z]]]
            (mk_ndarray 1 [[-1%Z]])
          = Ok (mk_ndarray 2 [[4%Z; 9%Z]])) as H2 by reflexivity.
  split; [exact H1|]. split; [exact H2|].
  exact (get_rand_features_GPU_vstack _ _ _ _ _ H1 H2).
Defined.

(** ** The GPU projection on rationals and on integers *)

Lemma abs_sq_nonneg_Q (v : Q) : (0 <= abs_sq v)%Q.
Proof. apply Qmult_le_0_compat; apply Qabs_nonneg. Qed.

Lemma Forall_rows_np_concatenate_axis1 {F} (P : F → Prop) (ys : list (ndarray F)) :
  ∀ out, Forall (λ y, Forall (Forall P) (rows y)) ys →
         np_concatenate_axis1 ys = Ok out → Forall (Forall P) (rows out).
Proof.
  induction ys as [|a ys IH]; intros out Hys; [done|].
  inversion Hys as [|? ? Ha Hys']; subst.
  destruct ys as [|b ys]; [by intros [= <-]|].
  intros (c & Hc & _ & ->)%np_concatenate_axis1_cons2_Ok.
  specialize (IH c Hys' Hc). unfold hcat. simpl.
  clear -Ha IH. revert IH. generalize (rows c).
  induction Ha as [|r la Hr _ IHa]; intros [|r' lc] Hc; simpl; try constructor.
  - apply Forall_app. by inversion Hc.
  - apply IHa. by inversion Hc.
Qed.

(** X8: on rationals, no entry of a GPU projection is negative. *)
Theorem get_rand_features_GPU_nonnegative (R : list (ndarray Q)) (X out : ndarray Q) :
  get_rand_features_GPU R X = Ok out →
  Forall (Forall (λ v, 0 <= v)%Q) (rows out).
Proof.
  intros (ys & Hys & Hcat)%get_rand_features_GPU_Ok%bind_Ok.
  apply (Forall_rows_np_concatenate_axis1 _ ys); [|done].
  apply mapM_Ok_Forall2 in Hys. clear Hcat.
  induction Hys as [|m y R' ys' Hy _ IH]; constructor; [|done].
  apply compute_dot_split_Ok in Hy as (d & _ & ->).
  unfold map_entries. simpl. apply Forall_fmap, Forall_forall. intros r _.
  simpl. apply Forall_fmap, Forall_forall. intros v _. apply abs_sq_nonneg_Q.
Qed.

Lemma get_rand_features_GPU_nonnegative_witness :
  get_rand_features_GPU [mk_ndarray 1 [[(-1 # 2)%Q]]] (mk_ndarray 1 [[3%Q]])
  = Ok (mk_ndarray 1 [[(9 # 4)%Q]])
  ∧ Forall (Forall (λ v, 0 <= v)%Q) (rows (mk_ndarray 1 [[(9 # 4)%Q]])).
Proof.
  assert (get_rand_features_GPU [mk_ndarray 1 [[(-1 # 2)%Q]]] (mk_ndarray 1 [[3%Q]])
          = Ok (mk_ndarray 1 [[(9 # 4)%Q]])) as Hrun by reflexivity.
  split; [exact Hrun|].
  exact (get_rand_features_GPU_nonnegative _ _ _ Hrun).
Defined.

Lemma mapM_fmap_same {A B} (f : A → result B) (g : A → A) (l : list A) :
  (∀ x, f (g x) = f x) → mapM f (g <$> l) = mapM f l.
Proof.
  intros Hfg. induction l as [|x l IH]; [done|].
  rewrite fmap_cons, !mapM_cons_unfold, Hfg. by rewrite IH.
Qed.

Lemma inner_opp_r (u v : list Z) : inner u (Z.opp <$> v) = (- inner u v)%Z.
Proof.
  unfold inner.
  assert (∀ acc : Z,
    foldl (λ acc p, fadd acc (fmul p.1 p.2)) (- acc)%Z (zip u (Z.opp <$> v))
    = (- foldl (λ acc p, fadd acc (fmul p.1 p.2)) acc (zip u v))%Z) as Hacc.
  { revert v. induction u as [|a u IH]; intros [|b v] acc; simpl; try done.
    rewrite <- IH. f_equal. lia. }
  apply (Hacc 0%Z).
Qed.

Lemma inner_opp_l (u v : list Z) : inner (Z.opp <$> u) v = (- inner u v)%Z.
Proof.
  unfold inner.
  assert (∀ acc : Z,
    foldl (λ acc p, fadd acc (fmul p.1 p.2)) (- acc)%Z (zip (Z.opp <$> u) v)
    = (- foldl (λ acc p, fadd acc (fmul p.1 p.2)) acc (zip u v))%Z) as Hacc.
  { revert v. induction u as [|a u IH]; intros [|b v] acc; simpl; try done.
    rewrite <- IH. f_equal. lia. }
  apply (Hacc 0%Z).
Qed.

Lemma column_opp (j : nat) (m : ndarray Z) :
  column j (map_entries Z.opp m) = Z.opp <$> column j m.
Proof.
  unfold column, map_entries. simpl. rewrite <- !list_fmap_compose.
  apply list_fmap_ext. intros i r _. simpl. rewrite list_lookup_fmap.
  by destruct (r !! j).
Qed.

Lemma compute_dot_split_opp_block (X m : ndarray Z) :
  compute_dot_split X (map_entries Z.opp m) = compute_dot_split X m.
Proof.
  unfold compute_dot_split, cp_asarray, cp_asnumpy, cp_dot.
  replace (nrows (map_entries Z.opp m)) with (nrows m)
    by (unfold nrows, map_entries; simpl; by rewrite length_fmap).
  case_decide; [|done]. simpl. f_equal. unfold map_entries at 1 3. simpl.
  f_equal. rewrite <- !list_fmap_compose. apply list_fmap_ext. intros i xr _.
  simpl. unfold dot_row. simpl. rewrite <- !list_fmap_compose.
  apply list_fmap_ext. intros k j _. simpl.
  by rewrite column_opp, inner_opp_r, Z.abs_opp.
Qed.

Lemma compute_dot_split_opp_input (X m : ndarray Z) :
  compute_dot_split (map_entries Z.opp X) m = compute_dot_split X m.
Proof.
  unfold compute_dot_split, cp_asarray, cp_asnumpy, cp_dot. simpl.
  case_decide; [|done]. simpl. f_equal. unfold map_entries. simpl.
  f_equal. rewrite <- !list_fmap_compose. apply list_fmap_ext. intros i xr _.
  simpl. unfold dot_row. rewrite <- !list_fmap_compose.
  apply list_fmap_ext. intros k j _. simpl.
  by rewrite inner_opp_l, Z.abs_opp.
Qed.

(** X9: the projection does not see signs.  On integer valued matrices,
    negating every entry of the blocks, or every entry of the input, gives
    the same result: the same array, or the same exception. *)
Theorem get_rand_features_GPU_sign_blind (R : list (ndarray Z)) (X : ndarray Z) :
  get_rand_features_GPU (map_entries Z.opp <$> R) X = get_rand_features_GPU R X
  ∧ get_rand_features_GPU R (map_entries Z.opp X) = get_rand_features_GPU R X.
Proof.
  unfold get_rand_features_GPU, cp_asarray. split.
  - by rewrite (mapM_fmap_same _ _ _ (compute_dot_split_opp_block X)).
  - f_equal. induction R as [|m R IH]; [done|].
    by rewrite !mapM_cons_unfold, compute_dot_split_opp_input, IH.
Qed.

(** ** [get_conv_features]: labels, loaders that stop early, widths *)

Section ConvFeaturesMore.
Context {F : Type} `{Scalar F} {image : Type}.
Implicit Types (model : list image → result (list F)) (b : batch image).

Lemma broadcast_to_length (r c : nat) (src : ndarray F) (new : list (list F)) :
  broadcast_to r c src = Ok new → length new = r.
Proof.
  unfold broadcast_to. intros (rs & _ & Hnew)%bind_Ok.
  case_decide; [by injection Hnew as <-|].
  destruct rs as [|row [|? ?]]; try done.
  injection Hnew as <-. by rewrite length_replicate.
Qed.

(** a slice assignment that starts where the written part ends *)
Lemma setitem_rows_next (c lo hi : nat) (filled rest new : list (list F))
    (src : ndarray F) :
  length filled = lo →
  broadcast_to (hi `min` (lo + length rest) - lo) c src = Ok new →
  setitem_rows (mk_ndarray c (filled ++ rest)) lo hi src
  = Ok (mk_ndarray c (filled ++ new ++ drop (length new) rest)).
Proof.
  intros Hlo Hnew. pose proof (broadcast_to_length _ _ _ _ Hnew) as Hlen.
  unfold setitem_rows, nrows. simpl. rewrite length_app, Hlo.
  replace (lo `min` (lo + length rest)) with lo by lia.
  rewrite Hnew. simpl. do 2 f_equal.
  rewrite take_app_length' by done. do 2 f_equal.
  rewrite drop_app_ge by lia. f_equal. lia.
Qed.

(** the loop for a loader that may stop early, with the rows [W b] that
    the assignment writes for the batch [b] *)
Lemma get_conv_features_loop_gen model (bsz c : nat)
    (W : batch image → list (list F)) (bs : list (batch image)) :
  ∀ (i : nat) (filled rest : list (list F)) (lf lr : list Z),
    hands_out bsz (length rest) bs →
    Forall (λ b, ∃ data v, model (images b) = Ok data
                   ∧ view (length (images b)) data = Ok v
                   ∧ broadcast_to (length (images b)) c v = Ok (W b)) bs →
    length filled = i * bsz → length lf = i * bsz → length lr = length rest →
    get_conv_features_loop model bsz i bs (mk_ndarray c (filled ++ rest)) (lf ++ lr)
    = Ok (mk_ndarray c (filled ++ mjoin (W <$> bs)
                          ++ drop (length (mjoin (W <$> bs))) rest),
          lf ++ mjoin ((λ b, (λ t, t `mod` 256)%Z <$> targets b) <$> bs)
             ++ drop (length (mjoin (W <$> bs))) lr).
Proof.
  induction bs as [|b bs IH]; intros i filled rest lf lr Hy Hm Hf Hlf Hlr.
  - simpl. by rewrite !drop_0.
  - destruct Hy as (Hpos & Hlen & Htl & Hy).
    inversion Hm as [|? ? (data & v & Hdata & Hview & Hnew) Hbs]; subst.
    pose proof (broadcast_to_length _ _ _ _ Hnew) as HW.
    simpl. unfold get_conv_features_body.
    rewrite Hdata. simpl. rewrite Hview. simpl.
    rewrite (setitem_rows_next c _ _ filled rest (W b)); [|done|].
    2:{ replace (((i + 1) * bsz) `min` (i * bsz + length rest) - i * bsz)
          with (length (images b)) by lia. done. }
    simpl. rewrite setitem_labels_fill by (done || lia). simpl.
    rewrite !(app_assoc _ _ (drop _ _)).
    assert (bs = [] ∨ length (images b) = bsz) as [->|Hfull].
    { destruct bs as [|b' bs]; [by left|right].
      destruct Hy as (Hpos' & Hlen' & _). lia. }
    + simpl. rewrite !app_nil_r, Htl, HW. by rewrite <- !app_assoc.
    + rewrite (IH (S i)).
      * rewrite !length_app, !drop_drop, Htl, HW.
        by rewrite <- !app_assoc.
      * rewrite length_drop, HW. done.
      * done.
      * rewrite length_app, HW. lia.
      * rewrite length_app, length_fmap. lia.
      * rewrite !length_drop. lia.
Qed.

Lemma hands_out_handed (bsz : nat) (bs : list (batch image)) :
  ∀ remaining, hands_out bsz remaining bs →
    length (mjoin (images <$> bs)) ≤ remaining
    ∧ length (mjoin (targets <$> bs)) = length (mjoin (images <$> bs)).
Proof.
  induction bs as [|b bs IH]; intros remaining Hy; [simpl; lia|].
  destruct Hy as (Hpos & Hlen & Htl & Hy). apply IH in Hy as [IH1 IH2].
  rewrite !fmap_cons. simpl. rewrite !length_app. lia.
Qed.

Lemma yields_all_hands_out (bsz : nat) (bs : list (batch image)) :
  ∀ remaining, yields_all bsz remaining bs →
    hands_out bsz remaining bs ∧ length (mjoin (images <$> bs)) = remaining.
Proof.
  induction bs as [|b bs IH]; intros remaining Hy; [done|].
  destruct Hy as (Hpos & Hlen & Htl & Hy). apply IH in Hy as [IH1 IH2].
  split; [done|]. rewrite fmap_cons. simpl. rewrite length_app. lia.
Qed.

Lemma fmap_mjoin_targets (bs : list (batch image)) :
  mjoin ((λ b, (λ t, t `mod` 256)%Z <$> targets b) <$> bs)
  = (λ t, t `mod` 256)%Z <$> mjoin (targets <$> bs).
Proof.
  induction bs as [|b bs IH]; [done|].
  rewrite !fmap_cons. simpl. by rewrite fmap_app, IH.
Qed.

(** X11: the labels come back as [uint8].  For a loader that hands out
    every sample of its dataset, the labels returned are the targets in
    the order they were handed out, each reduced modulo 256, one per row
    of the feature matrix. *)
Theorem conv_features_labels_modulo_256 (mem : nat → nat → F) (lmem : nat → Z)
    (loader : DataLoader image) model (out_shape : nat) :
  yields_all (batch_size loader) (dataset_len loader) (batches loader) →
  failure loader = None →
  Forall (features_per_sample model out_shape) (batches loader) →
  ∃ M labels,
    get_conv_features mem lmem loader model out_shape = Ok (M, labels)
    ∧ labels = (λ t, t `mod` 256)%Z <$> mjoin (targets <$> batches loader)
    ∧ length labels = dataset_len loader
    ∧ nrows M = dataset_len loader
    ∧ Forall (λ t, 0 ≤ t < 256)%Z labels.
Proof.
  intros Hy Hfail Hm. eexists _, _. split; [by apply get_conv_features_value|].
  destruct (raw_rows_spec model _ out_shape _ _ Hy Hm) as (_ & Hlen & _).
  destruct (yields_all_hands_out _ _ _ Hy) as [Hh Himg].
  destruct (hands_out_handed _ _ _ Hh) as [_ Htg].
  rewrite fmap_mjoin_targets. split_and!.
  - done.
  - rewrite length_fmap. lia.
  - unfold nrows, map_entries. simpl. by rewrite length_fmap.
  - apply Forall_fmap, Forall_forall. intros t _. simpl.
    apply Z.mod_pos_bound. lia.
Qed.
End ConvFeaturesMore.

Lemma conv_features_labels_modulo_256_witness :
  yields_all 2 3 [mk_batch [5%Z; (-7)%Z] [0%Z; 1%Z]; mk_batch [3%Z] [260%Z]]
  ∧ Forall (features_per_sample (λ imgs : list Z, Ok imgs) 1)
      [mk_batch [5%Z; (-7)%Z] [0%Z; 1%Z]; mk_batch [3%Z] [260%Z]]
  ∧ ∃ M labels,
      get_conv_features (λ _ _, 9%Z) (λ _, 0%Z)
        (mk_loader 3 2 [mk_batch [5%Z; (-7)%Z] [0%Z; 1%Z]; mk_batch [3%Z] [260%Z]] None)
        (λ imgs : list Z, Ok imgs) 1 = Ok (M, labels)
      ∧ labels = (λ t, t `mod` 256)%Z <$> [0%Z; 1%Z; 260%Z]
      ∧ length labels = 3 ∧ nrows M = 3
      ∧ Forall (λ t, 0 ≤ t < 256)%Z labels.
Proof.
  assert (yields_all 2 3 [mk_batch [5%Z; (-7)%Z] [0%Z; 1%Z]; mk_batch [3%Z] [260%Z]])
    as Hy.
  { simpl. lia. }
  assert (Forall (features_per_sample (λ imgs : list Z, Ok imgs) 1)
            [mk_batch [5%Z; (-7)%Z] [0%Z; 1%Z]; mk_batch [3%Z] [260%Z]]) as Hm.
  { repeat constructor; eexists; (split; [reflexivity|reflexivity]). }
  split; [exact Hy|]. split; [exact Hm|].
  exact (conv_features_labels_modulo_256 (λ _ _, 9%Z) (λ _, 0%Z)
           (mk_loader 3 2 [mk_batch [5%Z; (-7)%Z] [0%Z; 1%Z]; mk_batch [3%Z] [260%Z]] None)
           (λ imgs : list Z, Ok imgs) 1 Hy eq_refl Hm).
Defined.

Section ConvFeaturesEarlyStop.
Context {F : Type} `{Scalar F} {image : Type}.
Implicit Types (model : list image → result (list F)) (b : batch image).

Lemma hands_out_batch_rows model (bsz c : nat) (bs : list (batch image)) :
  ∀ remaining,
    hands_out bsz remaining bs →
    Forall (features_per_sample model c) bs →
    Forall (λ b, ∃ data v, model (images b) = Ok data
                   ∧ view (length (images b)) data = Ok v
                   ∧ broadcast_to (length (images b)) c v
                     = Ok (batch_rows model c b)) bs
    ∧ length (mjoin (batch_rows model c <$> bs)) = length (mjoin (images <$> bs))
    ∧ Forall (λ row, length row = c) (mjoin (batch_rows model c <$> bs)).
Proof.
  induction bs as [|b bs IH]; intros remaining Hy Hm.
  - simpl. split_and!; constructor.
  - destruct Hy as (Hpos & Hlen & Htl & Hy).
    inversion Hm as [|? ? Hb Hbs]; subst.
    destruct (IH _ Hy Hbs) as (IH1 & IH2 & IH3).
    destruct (batch_rows_view model c b Hpos Hb) as (Hview & Hrl & Hrw).
    apply bind_Ok in Hview as (data & Hdata & Hview).
    rewrite !fmap_cons. simpl. split_and!.
    + constructor; [|done]. exists data, (mk_ndarray c (batch_rows model c b)).
      split_and!; [done..|]. by apply broadcast_to_Ok.
    + rewrite !length_app. lia.
    + apply Forall_app. done.
Qed.

(** X12: a loader that stops early.  When the loader hands out full
    batches holding only [k] samples of its dataset (as with
    [drop_last=True]), [get_conv_features] still returns a matrix with
    one row per sample of the whole dataset: its first [k] rows are the
    thresholded features and its first [k] labels the targets modulo 256,
    and every later row and label is the thresholded, respectively
    reduced, content of the uninitialised buffers. *)
Theorem conv_features_loader_stops_early (mem : nat → nat → F) (lmem : nat → Z)
    (loader : DataLoader image) model (out_shape : nat) :
  hands_out (batch_size loader) (dataset_len loader) (batches loader) →
  failure loader = None →
  Forall (features_per_sample model out_shape) (batches loader) →
  ∃ M labels,
    get_conv_features mem lmem loader model out_shape = Ok (M, labels)
    ∧ shape M = (dataset_len loader, out_shape)
    ∧ length labels = dataset_len loader
    ∧ take (length (mjoin (images <$> batches loader))) (rows M)
      = (λ r : list F, gt0 <$> r)
        <$> mjoin (batch_rows model out_shape <$> batches loader)
    ∧ take (length (mjoin (images <$> batches loader))) labels
      = (λ t, t `mod` 256)%Z <$> mjoin (targets <$> batches loader)
    ∧ (∀ i j, length (mjoin (images <$> batches loader)) ≤ i →
         i < dataset_len loader → j < out_shape →
         entry M i j = Some (gt0 (mem i j)))
    ∧ (∀ i, length (mjoin (images <$> batches loader)) ≤ i →
         i < dataset_len loader →
         labels !! i = Some (lmem i `mod` 256)%Z).
Proof.
  intros Hh Hfail Hm.
  destruct (hands_out_batch_rows model _ out_shape _ _ Hh Hm) as (HW & Hk & Hrw).
  destruct (hands_out_handed _ _ _ Hh) as [Hle Htg].
  set (k := length (mjoin (images <$> batches loader))) in *.
  set (garbage := (λ i, (λ j, mem i j) <$> seq 0 out_shape)
                    <$> seq 0 (dataset_len loader)).
  assert (length garbage = dataset_len loader) as Hg.
  { unfold garbage. by rewrite length_fmap, length_seq. }
  assert (length (np_empty_uint8 lmem (dataset_len loader)) = dataset_len loader)
    as Hl.
  { unfold np_empty_uint8. by rewrite length_fmap, length_seq. }
  pose proof (get_conv_features_loop_gen model (batch_size loader) out_shape
    (batch_rows model out_shape) (batches loader) 0 [] garbage
    [] (np_empty_uint8 lmem (dataset_len loader))) as Hloop.
  rewrite Hg, Hk in Hloop. specialize (Hloop Hh HW eq_refl eq_refl Hl).
  rewrite !app_nil_l in Hloop.
  eexists _, _. split.
  { unfold get_conv_features, torch_FloatTensor. fold garbage.
    rewrite Hloop. rewrite bind_Ok_l. cbv beta iota. rewrite Hfail.
    rewrite bind_Ok_l. reflexivity. }
  assert (length ((λ t, t `mod` 256)%Z <$> mjoin (targets <$> batches loader)) = k)
    as Hlk by (by rewrite length_fmap).
  rewrite fmap_mjoin_targets.
  unfold shape, nrows, entry, map_entries. cbn [rows ncols].
  rewrite fmap_app. split_and!.
  - f_equal. rewrite length_app, !length_fmap, length_drop. lia.
  - rewrite length_app, length_drop. lia.
  - rewrite take_app_length'; [done|]. by rewrite length_fmap.
  - by rewrite take_app_length'.
  - intros i j Hki Hi Hj.
    rewrite lookup_app_r by (rewrite length_fmap; lia).
    rewrite list_lookup_fmap, lookup_drop, length_fmap, Hk.
    replace (k + (i - k)) with i by lia.
    unfold garbage. rewrite list_lookup_fmap, lookup_seq_lt by done. simpl.
    rewrite !list_lookup_fmap, lookup_seq_lt by done. done.
  - intros i Hki Hi.
    rewrite lookup_app_r by lia.
    rewrite lookup_drop, Hlk.
    replace (k + (i - k)) with i by lia.
    unfold np_empty_uint8. by rewrite list_lookup_fmap, lookup_seq_lt.
Qed.

Lemma mapM_broadcast_row_single (c : nat) (rs : list (list F)) :
  Forall (λ r, length r = 1) rs →
  mapM (broadcast_row c) rs = Ok (repeat_first c <$> rs).
Proof.
  intros Hrs. apply mapM_Ok_Forall2.
  induction Hrs as [|r rs Hr _ IH]; [constructor|].
  rewrite fmap_cons. constructor; [|done].
  destruct r as [|v [|? ?]]; try done.
  unfold broadcast_row, repeat_first. simpl.
  case_decide; [by subst|done].
Qed.

Lemma hands_out_single_feature model (bsz c : nat) (bs : list (batch image)) :
  ∀ remaining,
    hands_out bsz remaining bs →
    Forall (features_per_sample model 1) bs →
    Forall (λ b, ∃ data v, model (images b) = Ok data
                   ∧ view (length (images b)) data = Ok v
                   ∧ broadcast_to (length (images b)) c v
                     = Ok (repeat_first c <$> batch_rows model 1 b)) bs
    ∧ mjoin ((λ b, repeat_first c <$> batch_rows model 1 b) <$> bs)
      = repeat_first c <$> mjoin (batch_rows model 1 <$> bs).
Proof.
  induction bs as [|b bs IH]; intros remaining Hy Hm.
  - simpl. split; [constructor|done].
  - destruct Hy as (Hpos & Hlen & Htl & Hy).
    inversion Hm as [|? ? Hb Hbs]; subst.
    destruct (IH _ Hy Hbs) as (IH1 & IH2).
    destruct (batch_rows_view model 1 b Hpos Hb) as (Hview & Hrl & Hrw).
    apply bind_Ok in Hview as (data & Hdata & Hview).
    rewrite !fmap_cons. simpl. split.
    + constructor; [|done]. exists data, (mk_ndarray 1 (batch_rows model 1 b)).
      split_and!; [done..|]. unfold broadcast_to. cbn [rows].
      rewrite mapM_broadcast_row_single by done. rewrite bind_Ok_l.
      by rewrite decide_True by (by rewrite length_fmap).
    + by rewrite fmap_app, IH2.
Qed.

(** X13: a width of one is broadcast, not refused.  When the model gives
    a single feature per image, [get_conv_features] returns without
    error for every [out_shape]: the matrix has [out_shape] columns and
    every entry of row [i] is the thresholded single feature of the
    [i]-th sample. *)
Theorem conv_features_single_feature_broadcast (mem : nat → nat → F)
    (lmem : nat → Z) (loader : DataLoader image) model (out_shape : nat) :
  yields_all (batch_size loader) (dataset_len loader) (batches loader) →
  failure loader = None →
  Forall (features_per_sample model 1) (batches loader) →
  ∃ raw M labels,
    raw_features loader model = Ok raw
    ∧ get_conv_features mem lmem loader model out_shape = Ok (M, labels)
    ∧ shape M = (dataset_len loader, out_shape)
    ∧ ∀ i j, i < dataset_len loader → j < out_shape →
        entry M i j = gt0 <$> (raw !! i ≫= (.!! 0)).
Proof.
  intros Hy Hfail Hm.
  destruct (raw_rows_spec model _ 1 _ _ Hy Hm) as (Hraw & Hn & Hw).
  destruct (yields_all_hands_out _ _ _ Hy) as [Hh Himg].
  destruct (hands_out_single_feature model _ out_shape _ _ Hh Hm) as (HW & Hj).
  set (raw := mjoin (batch_rows model 1 <$> batches loader)) in *.
  set (garbage := (λ i, (λ j, mem i j) <$> seq 0 out_shape)
                    <$> seq 0 (dataset_len loader)).
  assert (length garbage = dataset_len loader) as Hg.
  { unfold garbage. by rewrite length_fmap, length_seq. }
  assert (length (np_empty_uint8 lmem (dataset_len loader)) = dataset_len loader)
    as Hl.
  { unfold np_empty_uint8. by rewrite length_fmap, length_seq. }
  pose proof (get_conv_features_loop_gen model (batch_size loader) out_shape
    (λ b, repeat_first out_shape <$> batch_rows model 1 b)
    (batches loader) 0 [] garbage
    [] (np_empty_uint8 lmem (dataset_len loader))) as Hloop.
  rewrite Hg, Hj in Hloop. specialize (Hloop Hh HW eq_refl eq_refl Hl).
  rewrite !app_nil_l, length_fmap, Hn in Hloop.
  rewrite drop_ge, app_nil_r in Hloop by lia.
  exists raw. eexists _, _. split_and!.
  - unfold raw_features. by rewrite Hraw.
  - unfold get_conv_features, torch_FloatTensor. fold garbage.
    rewrite Hloop. rewrite bind_Ok_l. cbv beta iota. rewrite Hfail.
    rewrite bind_Ok_l. reflexivity.
  - unfold shape, nrows, map_entries. cbn [rows ncols].
    by rewrite !length_fmap, Hn.
  - intros i j Hi Hjc. unfold entry, map_entries. cbn [rows].
    rewrite !list_lookup_fmap.
    destruct (lookup_lt_is_Some_2 raw i) as [row Hrow]; [lia|].
    rewrite Hrow. simpl.
    assert (length row = 1) as Hrl.
    { by apply (Forall_lookup_1 _ _ _ _ Hw Hrow). }
    destruct row as [|v [|? ?]]; try done.
    unfold repeat_first. simpl.
    by rewrite list_lookup_fmap, lookup_replicate_2.
Qed.

Lemma mapM_broadcast_row_Raise (c w : nat) (r : list F) (rs : list (list F)) :
  length r = w → w ≠ c → w ≠ 1 →
  mapM (broadcast_row c) (r :: rs)
  = Raise (RuntimeError "The expanded size of the tensor must match the existing size").
Proof.
  intros Hr Hc H1. rewrite mapM_cons_unfold.
  assert (broadcast_row c r
          = Raise (RuntimeError "The expanded size of the tensor must match the existing size"))
    as ->; [|done].
  unfold broadcast_row. rewrite decide_False by lia.
  destruct r as [|v [|? ?]]; simpl in *; (done || lia).
Qed.

(** X14: any other width is refused.  When the model gives [w] features
    per image for the first batch and [w] is neither [out_shape] nor 1,
    [get_conv_features] ends with the [RuntimeError] of the slice
    assignment, whatever the rest of the loader is. *)
Theorem conv_features_wrong_width_raises (mem : nat → nat → F) (lmem : nat → Z)
    (loader : DataLoader image) model (out_shape w : nat)
    b (bs : list (batch image)) (data : list F) :
  batches loader = b :: bs →
  0 < length (images b) →
  model (images b) = Ok data →
  length data = length (images b) * w →
  w ≠ out_shape → w ≠ 1 →
  get_conv_features mem lmem loader model out_shape
  = Raise (RuntimeError "The expanded size of the tensor must match the existing size").
Proof.
  intros Hb Hpos Hdata Hlen Hw H1.
  unfold get_conv_features. rewrite Hb.
  cbn [get_conv_features_loop]. unfold get_conv_features_body.
  rewrite Hdata, bind_Ok_l, (view_Ok _ w) by done. rewrite bind_Ok_l.
  unfold setitem_rows, broadcast_to. cbn [rows ncols].
  destruct (reshape (replicate (length (images b)) w) data) as [|r rs] eqn:Hrs.
  { apply (f_equal length) in Hrs.
    rewrite length_reshape, length_replicate in Hrs. simpl in Hrs. lia. }
  assert (length r = w) as Hr.
  { pose proof (reshape_replicate_Forall_length _ _ _ Hlen) as Hall.
    rewrite Hrs in Hall. by inversion Hall. }
  by rewrite (mapM_broadcast_row_Raise out_shape w).
Qed.
End ConvFeaturesEarlyStop.

Lemma conv_features_loader_stops_early_witness :
  hands_out 2 3 [mk_batch [5%Z; (-7)%Z] [0%Z; 1%Z]]
  ∧ Forall (features_per_sample (λ imgs : list Z, Ok imgs) 1)
      [mk_batch [5%Z; (-7)%Z] [0%Z; 1%Z]]
  ∧ ∃ M labels,
      get_conv_features (λ _ _, 9%Z) (λ _, 0%Z)
        (mk_loader 3 2 [mk_batch [5%Z; (-7)%Z] [0%Z; 1%Z]] None)
        (λ imgs : list Z, Ok imgs) 1 = Ok (M, labels)
      ∧ shape M = (3, 1)
      ∧ entry M 2 0 = Some true.
Proof.
  assert (hands_out 2 3 [mk_batch [5%Z; (-7)%Z] [0%Z; 1%Z]]) as Hy.
  { simpl. lia. }
  assert (Forall (features_per_sample (λ imgs : list Z, Ok imgs) 1)
            [mk_batch [5%Z; (-7)%Z] [0%Z; 1%Z]]) as Hm.
  { repeat constructor; eexists; (split; [reflexivity|reflexivity]). }
  split; [exact Hy|]. split; [exact Hm|].
  destruct (conv_features_loader_stops_early (λ _ _, 9%Z) (λ _, 0%Z)
              (mk_loader 3 2 [mk_batch [5%Z; (-7)%Z] [0%Z; 1%Z]] None)
              (λ imgs : list Z, Ok imgs) 1 Hy eq_refl Hm)
    as (M & labels & Hrun & Hshape & _ & _ & _ & Hrest & _).
  exists M, labels. split_and!; [exact Hrun|exact Hshape|].
  apply (Hrest 2 0); simpl; lia.
Defined.

Lemma conv_features_single_feature_broadcast_witness :
  yields_all 2 3 [mk_batch [5%Z; (-7)%Z] [0%Z; 1%Z]; mk_batch [3%Z] [260%Z]]
  ∧ Forall (features_per_sample (λ imgs : list Z, Ok imgs) 1)
      [mk_batch [5%Z; (-7)%Z] [0%Z; 1%Z]; mk_batch [3%Z] [260%Z]]
  ∧ ∃ raw M labels,
      raw_features
        (mk_loader 3 2 [mk_batch [5%Z; (-7)%Z] [0%Z; 1%Z]; mk_batch [3%Z] [260%Z]] None)
        (λ imgs : list Z, Ok imgs) = Ok raw
      ∧ get_conv_features (λ _ _, 9%Z) (λ _, 0%Z)
          (mk_loader 3 2 [mk_batch [5%Z; (-7)%Z] [0%Z; 1%Z]; mk_batch [3%Z] [260%Z]] None)
          (λ imgs : list Z, Ok imgs) 4 = Ok (M, labels)
      ∧ shape M = (3, 4)
      ∧ ∀ i j, i < 3 → j < 4 → entry M i j = gt0 <$> (raw !! i ≫= (.!! 0)).
Proof.
  assert (yields_all 2 3 [mk_batch [5%Z; (-7)%Z] [0%Z; 1%Z]; mk_batch [3%Z] [260%Z]])
    as Hy.
  { simpl. lia. }
  assert (Forall (features_per_sample (λ imgs : list Z, Ok imgs) 1)
            [mk_batch [5%Z; (-7)%Z] [0%Z; 1%Z]; mk_batch [3%Z] [260%Z]]) as Hm.
  { repeat constructor; eexists; (split; [reflexivity|reflexivity]). }
  split; [exact Hy|]. split; [exact Hm|].
  exact (conv_features_single_feature_broadcast (λ _ _, 9%Z) (λ _, 0%Z)
           (mk_loader 3 2 [mk_batch [5%Z; (-7)%Z] [0%Z; 1%Z]; mk_batch [3%Z] [260%Z]] None)
           (λ imgs : list Z, Ok imgs) 4 Hy eq_refl Hm).
Defined.

Lemma conv_features_wrong_width_raises_witness :
  get_conv_features (λ _ _, 9%Z) (λ _, 0%Z)
    (mk_loader 2 2 [mk_batch [5%Z; (-7)%Z] [0%Z; 1%Z]] None)
    (λ imgs : list Z, Ok (imgs ++ imgs)) 3
  = Raise (RuntimeError "The expanded size of the tensor must match the existing size").
Proof.
  apply (conv_features_wrong_width_raises (λ _ _, 9%Z) (λ _, 0%Z)
           (mk_loader 2 2 [mk_batch [5%Z; (-7)%Z] [0%Z; 1%Z]] None)
           (λ imgs : list Z, Ok (imgs ++ imgs)) 3 2
           (mk_batch [5%Z; (-7)%Z] [0%Z; 1%Z]) [] [5%Z; (-7)%Z; 5%Z; (-7)%Z]);
    (reflexivity || simpl; lia).
Defined.

(** ** The double descent notebook: what the OPU and the classifier get *)

(** X15: the input of the OPU is binary.  After [.int()], which truncates
    toward zero, the entry of [ae.encode(x)] at a position is 1 when the
    pre-activation there is positive and 0 otherwise: the value 1/2 that
    [encode] gives at a pre-activation of exactly zero becomes 0. *)
Theorem encoded_int_is_binary {input : Type} (encoder : input → list Q) (x : input) :
  Forall2 (λ v b, ((0 < v)%Q ∧ b = 1%Z) ∨ ((v <= 0)%Q ∧ b = 0%Z))
    (encoder x) (torch_int <$> Autoencoder.encode encoder x).
Proof.
  unfold Autoencoder.encode. rewrite <- list_fmap_compose.
  apply Forall2_fmap_r, Forall_Forall2_diag.
  apply Forall_forall. intros v _. unfold compose. cbv beta.
  destruct (torch_sign_Q v) as [[Hv ->]|[[Hv ->]|[Hv ->]]].
  - left. split; [done|reflexivity].
  - right. split; [by apply Qlt_le_weak|reflexivity].
  - right. split; [|reflexivity]. rewrite Hv. apply Qle_refl.
Qed.



